(** * The post collection pipeline of the site

    A shallow embedding of
      - [src/lib/utils.ts]      ([sortByPublished]),
      - [src/content/config.ts] (the frontmatter schema of the [posts]
        collection),
      - [src/pages/blog.astro]  (the blog index composition),
    together with the parts of the JavaScript language, of zod and of the
    content-collection loader these three files call into. *)

From stdpp Require Import base numbers option list sorting strings gmap.

#[local] Set Warnings "-register-all".
Local Open Scope Z_scope.

(** ** JavaScript values used by the pipeline *)

Module JS.

(** A [Date] object holds a time value: an integral number of milliseconds
    since the epoch, or NaN (an "Invalid Date"). *)
Inductive Date : Type :=
  | ValidDate (t : Z)
  | InvalidDate.

#[global] Instance Date_eq_dec : EqDecision Date.
Proof. solve_decision. Defined.

Definition is_valid (d : Date) : bool :=
  match d with ValidDate _ => true | InvalidDate => false end.

(** The numbers this program computes with are time values and their
    differences: integer-valued doubles, or NaN. *)
Inductive number : Type :=
  | NaN
  | Num (z : Z).

(** [Number(date)]: the time value of the date. *)
Definition Number (d : Date) : number :=
  match d with
  | ValidDate t => Num t
  | InvalidDate => NaN
  end.

(** The double nearest to the integer [z] (round to nearest, ties to even):
    a double carries 53 significant bits. *)
Definition round_double (z : Z) : Z :=
  let a := Z.abs z in
  let e := Z.log2 a - 52 in
  if e <=? 0 then z
  else
    let q := a / 2 ^ e in
    let r := a mod 2 ^ e in
    let half := 2 ^ (e - 1) in
    let q' := if (half <? r) || ((half =? r) && Z.odd q) then q + 1 else q in
    Z.sgn z * (q' * 2 ^ e).

(** [x - y] on numbers. *)
Definition sub (x y : number) : number :=
  match x, y with
  | Num a, Num b => Num (round_double (a - b))
  | _, _ => NaN
  end.

(** [SortCompare] of ECMAScript for a comparator [comparefn] on elements that
    are objects: the comparator's result, with NaN read as +0. *)
Definition SortCompare {T} (comparefn : T → T → number) (x y : T) : Z :=
  match comparefn x y with
  | NaN => 0
  | Num v => v
  end.

(** [Array.prototype.toSorted] on the elements of an array.  ECMAScript
    leaves the sequence of comparisons to the engine and fixes the result for
    a consistent comparator: the stable sorted rearrangement.  The model is
    the stable insertion sort: [x] moves behind [y] only when
    [SortCompare x y > 0]. *)
Section toSorted.
Context {T : Type} (comparefn : T → T → number).

Fixpoint insert (x : T) (l : list T) : list T :=
  match l with
  | [] => [x]
  | y :: l' =>
      if 0 <? SortCompare comparefn x y then y :: insert x l'
      else x :: y :: l'
  end.

Definition toSorted (l : list T) : list T := foldr insert [] l.
End toSorted.

End JS.

Export JS.

(** ** src/lib/utils.ts *)

(** The bound of the type parameter,
    [T extends { data: { published: Date } }]. *)
Class Published (T : Type) := published : T → Date.

Section utils.
Context {T : Type} `{Published T}.

(** [(a, b) => Number(b.data.published) - Number(a.data.published)] *)
Definition byPublished (a b : T) : number :=
  JS.sub (Number (published b)) (Number (published a)).

(** [sortByPublished(collection)] on the elements of the array. *)
Definition sortByPublished (collection : list T) : list T :=
  toSorted byPublished collection.
End utils.

(** ** Arrays as objects in a store

    An array is a reference into a store of element sequences; two names for
    the same reference see the same elements. *)

Module Store.
Section store.
Context {T : Type}.

(** Allocation of a new array holding [l]. *)
Definition ArrayCreate (l : list T) (h : gmap positive (list T))
    : positive * gmap positive (list T) :=
  let r := fresh (dom h) in (r, <[r := l]> h).

(** [this.toSorted(comparefn)]: reads the elements of [this], creates a new
    array and stores the sorted elements there.  [None]: [this] is not an
    array of the store. *)
Definition Array_toSorted (comparefn : T → T → number) (this : positive)
    (h : gmap positive (list T))
    : option (positive * gmap positive (list T)) :=
  l ← h !! this;
  Some (ArrayCreate (toSorted comparefn l) h).

(** A call [sortByPublished(collection)] where [collection] is a reference
    held by the caller. *)
Definition sortByPublished_call `{Published T} (collection : positive)
    (h : gmap positive (list T))
    : option (positive * gmap positive (list T)) :=
  Array_toSorted byPublished collection h.
End store.
End Store.

(** ** Results of fallible computations *)

Inductive result (E A : Type) : Type :=
  | Ok (a : A)
  | Err (e : E).
Arguments Ok {E A} a.
Arguments Err {E A} e.

Definition rbind {E A B} (m : result E A) (k : A → result E B) : result E B :=
  match m with
  | Ok a => k a
  | Err e => Err e
  end.

Notation "x ← m ;;; k" := (rbind m (fun x => k))
  (at level 20, m at level 100, k at level 200, only parsing).

Fixpoint mapM_result {E A B} (f : A → result E B) (l : list A)
    : result E (list B) :=
  match l with
  | [] => Ok []
  | x :: l' => y ← f x ;;; ys ← mapM_result f l' ;;; Ok (y :: ys)
  end.

Definition is_Ok {E A} (r : result E A) : bool :=
  match r with Ok _ => true | Err _ => false end.

(** ** Frontmatter values and zod *)

(** What the frontmatter of a document evaluates to: YAML scalars (a YAML
    timestamp is a [Date]), sequences and mappings.  [VUndefined] is what
    reading an absent key gives.  The payload of a number is kept to the
    integer-valued ones: the schema looks at the type of a value only. *)
Inductive value : Type :=
  | VUndefined
  | VNull
  | VBoolean (b : bool)
  | VNumber (n : number)
  | VString (s : string)
  | VDate (d : Date)
  | VArray (l : list value)
  | VObject (o : list (string * value)).

(** [data[key]] *)
Definition get (data : gmap string value) (key : string) : value :=
  default VUndefined (data !! key).

(** [ToBoolean] *)
Definition ToBoolean (v : value) : bool :=
  match v with
  | VUndefined | VNull => false
  | VBoolean b => b
  | VNumber NaN => false
  | VNumber (Num z) => negb (z =? 0)
  | VString s => negb (String.eqb s "")
  | VDate _ | VArray _ | VObject _ => true
  end.

Module Zod.

(** zod's [ZodParsedType], restricted to the types of [value]. *)
Inductive ZodParsedType : Type :=
  | t_string | t_nan | t_number | t_boolean | t_date
  | t_undefined | t_null | t_array | t_object.

Definition getParsedType (v : value) : ZodParsedType :=
  match v with
  | VUndefined => t_undefined
  | VNull => t_null
  | VBoolean _ => t_boolean
  | VNumber NaN => t_nan
  | VNumber (Num _) => t_number
  | VString _ => t_string
  | VDate _ => t_date
  | VArray _ => t_array
  | VObject _ => t_object
  end.

Inductive ZodIssueCode : Type :=
  | invalid_type (expected received : ZodParsedType)
  | invalid_date.

(** An issue: what is wrong, and the path of keys to where. *)
Record ZodIssue : Type := { code : ZodIssueCode; path : list string }.

(** [z.string()]: the input must be a string; no further check. *)
Definition string_ (path : list string) (input : value)
    : result (list ZodIssue) string :=
  match input with
  | VString s => Ok s
  | _ => Err [ {| code := invalid_type t_string (getParsedType input);
                  path := path |} ]
  end.

(** [z.date()]: the input must be a [Date], and its time value not NaN. *)
Definition date (path : list string) (input : value)
    : result (list ZodIssue) Date :=
  match input with
  | VDate (ValidDate t) => Ok (ValidDate t)
  | VDate InvalidDate => Err [ {| code := invalid_date; path := path |} ]
  | _ => Err [ {| code := invalid_type t_date (getParsedType input);
                  path := path |} ]
  end.

(** [schema.optional()]: [undefined] is accepted as it is, anything else goes
    to the inner schema. *)
Definition optional {A} (inner : list string → value → result (list ZodIssue) A)
    (path : list string) (input : value) : result (list ZodIssue) (option A) :=
  match input with
  | VUndefined => Ok None
  | _ => a ← inner path input ;;; Ok (Some a)
  end.

(** [z.ostring()] is [z.string().optional()]. *)
Definition ostring : list string → value → result (list ZodIssue) (option string) :=
  optional string_.

(** [z.object] parses every key of its shape, in the order of the shape, and
    gathers the issues of all of them. *)
Definition ap {A B} (f : result (list ZodIssue) (A → B))
    (x : result (list ZodIssue) A) : result (list ZodIssue) B :=
  match f, x with
  | Ok g, Ok a => Ok (g a)
  | Ok _, Err i => Err i
  | Err i, Ok _ => Err i
  | Err i, Err j => Err (i ++ j)
  end.

End Zod.

Infix "<*>" := Zod.ap (at level 61, left associativity).

(** ** src/content/config.ts *)

(** The output type of the schema. *)
Record PostData : Type := {
  title : string;
  description : string;
  data_published : Date;
  og_image_path : option string;
}.

(** [z.object({ title: z.string(), description: z.string(),
                published: z.date(), og_image_path: z.ostring() })]
    applied to the frontmatter of a document. *)
Definition postsCollection (data : gmap string value)
    : result (list Zod.ZodIssue) PostData :=
  Ok Build_PostData
    <*> Zod.string_ ["title"] (get data "title")
    <*> Zod.string_ ["description"] (get data "description")
    <*> Zod.date ["published"] (get data "published")
    <*> Zod.ostring ["og_image_path"] (get data "og_image_path").

(** ** The content-collection loader *)

(** A content document as stored: [doc_id] and [doc_slug] come from the place
    of the file, the frontmatter from its header. *)
Record Document : Type := {
  doc_id : string;
  doc_slug : string;
  doc_body : string;
  doc_frontmatter : gmap string value;
}.

(** An entry of a collection, as [getCollection] hands it out. *)
Record CollectionEntry : Type := {
  id : string;
  slug : string;
  body : string;
  collection : string;
  data : PostData;
}.

#[global] Instance CollectionEntry_published : Published CollectionEntry :=
  fun post => data_published (data post).

(** What aborts the build. *)
Inductive Error : Type :=
  | InvalidContentEntryFrontmatterError
      (collection entry_id : string) (issues : list Zod.ZodIssue)
  | RangeError.

(** [export const collections = { posts: postsCollection }] *)
Definition collections
    : gmap string (gmap string value → result (list Zod.ZodIssue) PostData) :=
  {[ "posts" := postsCollection ]}.

(** The loader parses the frontmatter of a document with the schema of its
    collection; a failure is an error that names the collection, the document
    and the issues. *)
Definition getEntryData
    (schema : gmap string value → result (list Zod.ZodIssue) PostData)
    (collection : string) (doc : Document) : result Error CollectionEntry :=
  match schema (doc_frontmatter doc) with
  | Ok d =>
      Ok {| id := doc_id doc; slug := doc_slug doc; body := doc_body doc;
            collection := collection; data := d |}
  | Err issues =>
      Err (InvalidContentEntryFrontmatterError collection (doc_id doc) issues)
  end.

(** [getCollection(collection, filter)]: every document of the collection,
    parsed, and of these the entries on which [filter] returns a truthy
    value; nothing for a collection that is not configured. *)
Definition getCollection (store : list Document) (collection : string)
    (filter_fn : CollectionEntry → value) : result Error (list CollectionEntry) :=
  match collections !! collection with
  | Some schema =>
      entries ← mapM_result (getEntryData schema collection) store ;;;
      Ok (filter (λ entry, ToBoolean (filter_fn entry)) entries)
  | None => Ok []
  end.

(** ** Dates in UTC (ECMAScript, "Time Values and Time Range") *)

Module JSDate.

Definition msPerDay : Z := 86400000.
Definition msPerHour : Z := 3600000.
Definition msPerMinute : Z := 60000.
Definition msPerSecond : Z := 1000.

Definition Day (t : Z) : Z := t / msPerDay.
Definition TimeWithinDay (t : Z) : Z := t mod msPerDay.

Definition DaysInYear (y : Z) : Z :=
  if negb (y mod 4 =? 0) then 365
  else if negb (y mod 100 =? 0) then 366
  else if negb (y mod 400 =? 0) then 365
  else 366.

Definition DayFromYear (y : Z) : Z :=
  365 * (y - 1970) + (y - 1969) / 4 - (y - 1901) / 100 + (y - 1601) / 400.

Definition TimeFromYear (y : Z) : Z := msPerDay * DayFromYear y.

(** The largest [y] with [TimeFromYear y ≤ t]: the year of the mean
    Gregorian year length, moved by one where the leap days ask for it. *)
Definition YearFromTime (t : Z) : Z :=
  let y := 1970 + (Day t * 400) / 146097 in
  if t <? TimeFromYear y then y - 1
  else if TimeFromYear (y + 1) <=? t then y + 1
  else y.

Definition DayWithinYear (t : Z) : Z := Day t - DayFromYear (YearFromTime t).

Definition InLeapYear (t : Z) : Z :=
  if DaysInYear (YearFromTime t) =? 365 then 0 else 1.

Definition MonthFromTime (t : Z) : Z :=
  let d := DayWithinYear t in
  let leap := InLeapYear t in
  if d <? 31 then 0
  else if d <? 59 + leap then 1
  else if d <? 90 + leap then 2
  else if d <? 120 + leap then 3
  else if d <? 151 + leap then 4
  else if d <? 181 + leap then 5
  else if d <? 212 + leap then 6
  else if d <? 243 + leap then 7
  else if d <? 273 + leap then 8
  else if d <? 304 + leap then 9
  else if d <? 334 + leap then 10
  else 11.

Definition DateFromTime (t : Z) : Z :=
  let d := DayWithinYear t in
  let leap := InLeapYear t in
  match MonthFromTime t with
  | 0 => d + 1
  | 1 => d - 30
  | 2 => d - 58 - leap
  | 3 => d - 89 - leap
  | 4 => d - 119 - leap
  | 5 => d - 150 - leap
  | 6 => d - 180 - leap
  | 7 => d - 211 - leap
  | 8 => d - 242 - leap
  | 9 => d - 272 - leap
  | 10 => d - 303 - leap
  | _ => d - 333 - leap
  end.

Definition HourFromTime (t : Z) : Z := (t / msPerHour) mod 24.
Definition MinFromTime (t : Z) : Z := (t / msPerMinute) mod 60.
Definition SecFromTime (t : Z) : Z := (t / msPerSecond) mod 60.
Definition msFromTime (t : Z) : Z := t mod msPerSecond.

(** The day within the year on which month [m] starts. *)
Definition MonthStart (m leap : Z) : Z :=
  match m with
  | 0 => 0
  | 1 => 31
  | 2 => 59 + leap
  | 3 => 90 + leap
  | 4 => 120 + leap
  | 5 => 151 + leap
  | 6 => 181 + leap
  | 7 => 212 + leap
  | 8 => 243 + leap
  | 9 => 273 + leap
  | 10 => 304 + leap
  | _ => 334 + leap
  end.

(** [MakeDay], [MakeTime] and [MakeDate] of ECMAScript, for a month from 0 to
    11: the time value of a date given by its fields. *)
Definition MakeDay (year month date : Z) : Z :=
  DayFromYear year
  + MonthStart month (if DaysInYear year =? 365 then 0 else 1)
  + date - 1.

Definition MakeTime (hour min sec ms : Z) : Z :=
  hour * msPerHour + min * msPerMinute + sec * msPerSecond + ms.

Definition MakeDate (day time : Z) : Z := day * msPerDay + time.

(** The decimal digit [n mod 10] as a character. *)
Definition digit (n : Z) : Ascii.ascii :=
  Ascii.ascii_of_N (48 + Z.to_N (n mod 10)).

(** [n] in decimal, on exactly [width] digits, zero padded. *)
Fixpoint pad (width : nat) (n : Z) : string :=
  match width with
  | O => ""
  | S w => pad w (n / 10) +:+ String (digit n) ""
  end.

(** The year of the date-time string format: four digits from 0 to 9999, the
    expanded form with a sign and six digits outside. *)
Definition year_string (y : Z) : string :=
  if (0 <=? y) && (y <=? 9999) then pad 4 y
  else if 0 <=? y then "+" +:+ pad 6 y
  else "-" +:+ pad 6 (- y).

(** [YYYY-MM-DDTHH:mm:ss.sssZ] *)
Definition iso_string (t : Z) : string :=
  year_string (YearFromTime t) +:+ "-" +:+ pad 2 (MonthFromTime t + 1)
    +:+ "-" +:+ pad 2 (DateFromTime t)
    +:+ "T" +:+ pad 2 (HourFromTime t) +:+ ":" +:+ pad 2 (MinFromTime t)
    +:+ ":" +:+ pad 2 (SecFromTime t) +:+ "." +:+ pad 3 (msFromTime t)
    +:+ "Z".

(** [date.toISOString()] throws a [RangeError] on an invalid date. *)
Definition toISOString (d : Date) : result Error string :=
  match d with
  | ValidDate t => Ok (iso_string t)
  | InvalidDate => Err RangeError
  end.

(** The options [humanTime] passes to [toLocaleString]. *)
Record DateTimeFormatOptions : Type := {
  weekday : string;
  year : string;
  month : string;
  day : string;
}.

End JSDate.

Export JSDate.

(** ** src/lib/utils.ts, [humanTime], and src/pages/blog.astro *)

Section blog.
(** [date.toLocaleString(undefined, options)]: the formatting of the host,
    in its locale and time zone. *)
Variable toLocaleString : Date → DateTimeFormatOptions → string.

Definition humanTime (date : Date) : string :=
  toLocaleString date
    {| weekday := "long"; year := "numeric"; month := "long";
       day := "numeric" |}.

(** [const posts = await getCollection('posts', ({ data }) => data.published)] *)
Definition posts (store : list Document) : result Error (list CollectionEntry) :=
  getCollection store "posts" (λ entry, VDate (data_published (data entry))).

(** One [<li>] of the listing: the link target, the [datetime] attribute
    and the text of the [<time>] element, the heading and the paragraph. *)
Record ListItem : Type := {
  href : string;
  datetime : string;
  time_text : string;
  h3_text : string;
  p_text : string;
}.

Definition li (post : CollectionEntry) : result Error ListItem :=
  iso ← toISOString (data_published (data post)) ;;;
  Ok {| href := "/blog/" +:+ slug post;
        datetime := iso;
        time_text := humanTime (data_published (data post));
        h3_text := title (data post);
        p_text := description (data post) |}.

(** The [<ol>] of the page: [sortByPublished(posts).map(...)]. *)
Definition blog (store : list Document) : result Error (list ListItem) :=
  ps ← posts store ;;;
  mapM_result li (sortByPublished ps).
End blog.

(** ** Vocabulary of the statements *)

(** [a > b] on dates: both are valid and the time value of [a] is larger. *)
Definition Date_gt (a b : Date) : Prop :=
  match a, b with
  | ValidDate x, ValidDate y => y < x
  | _, _ => False
  end.

#[global] Instance Date_gt_dec a b : Decision (Date_gt a b).
Proof. destruct a, b; simpl; apply _. Defined.

(** [x] may stand before [y] in a listing that is most recent first. *)
Definition not_older {T} `{Published T} (x y : T) : Prop :=
  match published x, published y with
  | ValidDate tx, ValidDate ty => ty ≤ tx
  | _, _ => True
  end.

(** Posts as the schema yields them: the date of each is a valid date. *)
Definition all_valid {T} `{Published T} (l : list T) : Prop :=
  Forall (λ x, is_valid (published x) = true) l.

Definition is_text (v : value) : bool :=
  match v with VString _ => true | _ => false end.

Definition is_valid_date (v : value) : bool :=
  match v with VDate (ValidDate _) => true | _ => false end.

Definition absent_or_text (v : value) : bool :=
  match v with VUndefined | VString _ => true | _ => false end.

Definition issues_of {A} (r : result (list Zod.ZodIssue) A)
    : list Zod.ZodIssue :=
  match r with Ok _ => [] | Err issues => issues end.

(** ** The posts of the site, and frontmatter to try the schema on *)

Definition slack_post : Document := {|
  doc_id := "verifying-slack-requests-elixir-phoenix.mdx";
  doc_slug := "verifying-slack-requests-elixir-phoenix";
  doc_body := "";
  doc_frontmatter :=
    {[ "title" := VString "Verifying Slack Requests in Phoenix";
       "description" := VString "Using signature verification to ensure the authenticity of requests from Slack's Events API";
       "published" := VDate (ValidDate 1714219200000);
       "og_image_path" := VString "/og/slack-verification.png" ]};
|}.

Definition streaming_part_2 : Document := {|
  doc_id := "openai-streaming-elixir-phoenix-part-2.mdx";
  doc_slug := "openai-streaming-elixir-phoenix-part-2";
  doc_body := "";
  doc_frontmatter :=
    {[ "title" := VString "Streaming OpenAI in Elixir Phoenix Part II";
       "description" := VString "Making our parser robust to HTTP buffering";
       "published" := VDate (ValidDate 1704715200000) ]};
|}.

Definition streaming_part_3 : Document := {|
  doc_id := "openai-streaming-elixir-phoenix-part-3.mdx";
  doc_slug := "openai-streaming-elixir-phoenix-part-3";
  doc_body := "";
  doc_frontmatter :=
    {[ "title" := VString "Streaming OpenAI in Elixir Phoenix Part III";
       "description" := VString "Using LiveView to create a streaming chat playground";
       "published" := VDate (ValidDate 1709467200000) ]};
|}.

Definition site : list Document :=
  [slack_post; streaming_part_2; streaming_part_3].

(** The entries of these documents. *)
Definition slack_entry : CollectionEntry := {|
  id := "verifying-slack-requests-elixir-phoenix.mdx";
  slug := "verifying-slack-requests-elixir-phoenix";
  body := "";
  collection := "posts";
  data := {| title := "Verifying Slack Requests in Phoenix";
             description := "Using signature verification to ensure the authenticity of requests from Slack's Events API";
             data_published := ValidDate 1714219200000;
             og_image_path := Some "/og/slack-verification.png" |};
|}.

Definition part_2_entry : CollectionEntry := {|
  id := "openai-streaming-elixir-phoenix-part-2.mdx";
  slug := "openai-streaming-elixir-phoenix-part-2";
  body := "";
  collection := "posts";
  data := {| title := "Streaming OpenAI in Elixir Phoenix Part II";
             description := "Making our parser robust to HTTP buffering";
             data_published := ValidDate 1704715200000;
             og_image_path := None |};
|}.

Definition part_3_entry : CollectionEntry := {|
  id := "openai-streaming-elixir-phoenix-part-3.mdx";
  slug := "openai-streaming-elixir-phoenix-part-3";
  body := "";
  collection := "posts";
  data := {| title := "Streaming OpenAI in Elixir Phoenix Part III";
             description := "Using LiveView to create a streaming chat playground";
             data_published := ValidDate 1709467200000;
             og_image_path := None |};
|}.

Definition site_posts : list CollectionEntry :=
  [slack_entry; part_2_entry; part_3_entry].

(** An entry with nothing but a slug and a date. *)
Definition entry (slug : string) (d : Date) : CollectionEntry := {|
  id := slug +:+ ".md"; slug := slug; body := ""; collection := "posts";
  data := {| title := slug; description := ""; data_published := d;
             og_image_path := None |};
|}.

(** Two posts of the same instant between two others. *)
Definition posts_with_tie : list CollectionEntry :=
  [entry "a" (ValidDate 1704628800000); entry "b" (ValidDate 1709467200000);
   entry "c" (ValidDate 1704628800000); entry "d" (ValidDate 1714219200000)].

(** Titled and described, no [published]. *)
Definition draft_frontmatter : gmap string value :=
  {[ "title" := VString "C"; "description" := VString "d3" ]}.

(** Titled and described, with a preview image, no [published]. *)
Definition draft_with_image_frontmatter : gmap string value :=
  {[ "title" := VString "Notes"; "description" := VString "Unfinished";
     "og_image_path" := VString "/og/notes.png" ]}.

(** An empty title and an empty description. *)
Definition blank_frontmatter : gmap string value :=
  {[ "title" := VString ""; "description" := VString "";
     "published" := VDate (ValidDate 1704628800000) ]}.

(** Title, description and date are there; [og_image_path] is a number. *)
Definition numbered_image_frontmatter : gmap string value :=
  {[ "title" := VString "A"; "description" := VString "d1";
     "published" := VDate (ValidDate 1704628800000);
     "og_image_path" := VNumber (Num 3) ]}.

(** No [title]. *)
Definition untitled_frontmatter : gmap string value :=
  {[ "description" := VString "d1";
     "published" := VDate (ValidDate 1704628800000) ]}.

Definition untitled_document : Document := {|
  doc_id := "untitled.md"; doc_slug := "untitled"; doc_body := "";
  doc_frontmatter := untitled_frontmatter;
|}.

(** ** src/layouts/Home.astro *)

(** [{title ? `${title} · Ben Reinhart` : 'Ben Reinhart'}] for the prop
    [title?: string]. *)
Definition Layout_title (title : option string) : string :=
  if ToBoolean (from_option VString VUndefined title)
  then default "" title +:+ " · Ben Reinhart"
  else "Ben Reinhart".

(** The inline script of the layouts:
    [const theme = localStorage.getItem('theme');
     if (theme) { document.documentElement.dataset.theme = theme; }]
    [getItem] gives [null] for a key that is not stored. *)
Definition theme_script (localStorage dataset : gmap string string)
    : gmap string string :=
  let theme := from_option VString VNull (localStorage !! "theme") in
  if ToBoolean theme
  then <["theme" := default "" (localStorage !! "theme")]> dataset
  else dataset.

(** ** More vocabulary *)

(** The keys of the shape of the schema, in its order. *)
Definition shape_keys : list string :=
  ["title"; "description"; "published"; "og_image_path"].

(** The code of the issue [z.date()] raises on a value it rejects. *)
Definition date_issue_code (v : value) : Zod.ZodIssueCode :=
  match v with
  | VDate _ => Zod.invalid_date
  | _ => Zod.invalid_type Zod.t_date (Zod.getParsedType v)
  end.

(** A number for a title, a boolean for the image, nothing else. *)
Definition mistyped_frontmatter : gmap string value :=
  {[ "title" := VNumber (Num 1); "og_image_path" := VBoolean true ]}.

(** The date written as a text. *)
Definition text_date_frontmatter : gmap string value :=
  {[ "title" := VString "A"; "description" := VString "d1";
     "published" := VString "2024-01-07" ]}.

(** * Facts *)

Import Zod.

(** ** Rounding to a double keeps the sign *)

Lemma round_double_pos z : 0 < z → 0 < round_double z.
Proof.
  intros Hz. unfold round_double. cbv zeta.
  destruct (Z.leb_spec (Z.log2 (Z.abs z) - 52) 0) as [|He]; [done|].
  rewrite Z.abs_eq by lia. rewrite Z.abs_eq in He by lia.
  rewrite Z.sgn_pos by done.
  set (e := Z.log2 z - 52) in *.
  assert (0 < 2 ^ e) by (apply Z.pow_pos_nonneg; lia).
  assert (2 ^ e ≤ z).
  { trans (2 ^ Z.log2 z); [apply Z.pow_le_mono_r; lia|].
    apply Z.log2_spec; done. }
  assert (1 ≤ z / 2 ^ e) by (apply Z.div_le_lower_bound; lia).
  destruct (_ || _); nia.
Qed.

Lemma round_double_0 : round_double 0 = 0.
Proof. reflexivity. Qed.

Lemma round_double_opp z : round_double (- z) = - round_double z.
Proof.
  unfold round_double. cbv zeta. rewrite Z.abs_opp, Z.sgn_opp.
  destruct (_ <=? 0); [done|]. lia.
Qed.

Lemma round_double_sgn z : Z.sgn (round_double z) = Z.sgn z.
Proof.
  destruct (Z.lt_trichotomy z 0) as [Hz|[->|Hz]].
  - rewrite (Z.sgn_neg z) by done. apply Z.sgn_neg.
    pose proof (round_double_pos (- z)) as Hp.
    rewrite round_double_opp in Hp. lia.
  - done.
  - rewrite (Z.sgn_pos z) by done. apply Z.sgn_pos, round_double_pos. done.
Qed.

Lemma round_double_exact z : Z.abs z < 2 ^ 53 → round_double z = z.
Proof.
  intros Hz. unfold round_double. cbv zeta.
  destruct (Z.leb_spec (Z.log2 (Z.abs z) - 52) 0) as [|He]; [done|].
  exfalso. destruct (decide (Z.abs z = 0)) as [Hz0|Hz0].
  { rewrite Hz0 in He. simpl in He. lia. }
  assert (Z.log2 (Z.abs z) < 53); [|lia].
  apply Z.log2_lt_pow2; lia.
Qed.

(** ** The comparator and the insertion *)

Section sort_facts.
Context {T : Type} `{Published T}.
Implicit Types (x y : T) (l : list T).

Lemma SortCompare_valid x y tx ty :
  published x = ValidDate tx → published y = ValidDate ty →
  SortCompare byPublished x y = round_double (ty - tx).
Proof. intros Hx Hy. unfold SortCompare, byPublished. by rewrite Hx, Hy. Qed.

Lemma SortCompare_invalid x y :
  published x = InvalidDate ∨ published y = InvalidDate →
  SortCompare byPublished x y = 0.
Proof.
  unfold SortCompare, byPublished.
  intros [->| ->]; [by destruct (published y)|by destruct (published x)].
Qed.

(** The comparator is positive exactly when its first argument is the
    strictly older post. *)
Lemma SortCompare_pos x y :
  0 < SortCompare byPublished x y ↔ Date_gt (published y) (published x).
Proof.
  destruct (published x) as [tx|] eqn:Hx, (published y) as [ty|] eqn:Hy;
    try (rewrite SortCompare_invalid by auto; simpl; lia).
  rewrite (SortCompare_valid _ _ _ _ Hx Hy). simpl.
  pose proof (round_double_sgn (ty - tx)). lia.
Qed.

Lemma insert_cons_behind x y l :
  Date_gt (published y) (published x) →
  insert byPublished x (y :: l) = y :: insert byPublished x l.
Proof.
  intros Hgt%SortCompare_pos. simpl.
  by destruct (Z.ltb_spec 0 (SortCompare byPublished x y)); [|lia].
Qed.

Lemma insert_cons_front x y l :
  ¬ Date_gt (published y) (published x) →
  insert byPublished x (y :: l) = x :: y :: l.
Proof.
  intros Hgt. simpl.
  destruct (Z.ltb_spec 0 (SortCompare byPublished x y)) as [Hp|]; [|done].
  by apply SortCompare_pos in Hp.
Qed.

Lemma insert_Permutation x l : insert byPublished x l ≡ₚ x :: l.
Proof.
  induction l as [|y l IH]; [done|]. simpl.
  destruct (0 <? _); [|done]. rewrite IH. apply Permutation_swap.
Qed.

Lemma toSorted_Permutation l : toSorted byPublished l ≡ₚ l.
Proof.
  induction l as [|x l IH]; [done|]. simpl.
  by rewrite insert_Permutation, IH.
Qed.
End sort_facts.

(** ** Lists *)

Lemma StronglySorted_lookup_lt {A} (R : relation A) (l : list A) (i j : nat) x y :
  StronglySorted R l → l !! i = Some x → l !! j = Some y → (i < j)%nat → R x y.
Proof.
  intros Hl. revert i j. induction Hl as [|z l Hl IH Hz]; intros i j Hi Hj Hij.
  { done. }
  destruct j as [|j]; [lia|]. destruct i as [|i]; simpl in *.
  - simplify_eq. rewrite Forall_forall in Hz. apply Hz.
    by eapply list_elem_of_lookup_2.
  - apply (IH i j); [done..|lia].
Qed.

Lemma filter_eq_app_cons {A} (P : A → Prop) `{∀ x, Decision (P x)}
    (m u v : list A) x :
  filter P m = u ++ x :: v →
  ∃ m1 m2, m = m1 ++ x :: m2 ∧ filter P m1 = u ∧ filter P m2 = v.
Proof.
  revert u. induction m as [|y m IH]; intros u Hf.
  { by destruct u. }
  rewrite filter_cons in Hf. destruct (decide (P y)) as [Hy|Hy].
  - destruct u as [|u0 u]; simplify_eq/=.
    + exists [], m. by rewrite filter_nil.
    + destruct (IH _ H1) as (m1 & m2 & -> & <- & <-).
      exists (u0 :: m1), m2. by rewrite filter_cons_True.
  - destruct (IH _ Hf) as (m1 & m2 & -> & <- & <-).
    exists (y :: m1), m2. by rewrite filter_cons_False.
Qed.

(** ** The order of the result *)

Section order_facts.
Context {T : Type} `{Published T}.
Implicit Types (x y : T) (l : list T).

Lemma not_older_not_gt x y :
  not_older x y → ¬ Date_gt (published y) (published x).
Proof. unfold not_older, Date_gt. repeat case_match; lia. Qed.

Lemma not_gt_not_older x y :
  ¬ Date_gt (published y) (published x) → not_older x y.
Proof. unfold not_older, Date_gt. repeat case_match; lia. Qed.

Lemma Date_gt_not_older x y :
  Date_gt (published x) (published y) → not_older x y.
Proof. unfold not_older, Date_gt. repeat case_match; lia. Qed.

Lemma not_older_trans x y z :
  is_valid (published y) = true →
  not_older x y → not_older y z → not_older x z.
Proof. unfold not_older. repeat case_match; simpl; try done; lia. Qed.

Lemma Date_gt_neq x y :
  Date_gt (published y) (published x) → published y ≠ published x.
Proof. unfold Date_gt. intros Hgt Heq. rewrite Heq in Hgt. case_match; lia. Qed.

Lemma all_valid_Permutation l m : l ≡ₚ m → all_valid l → all_valid m.
Proof. unfold all_valid. by intros ->. Qed.

Lemma insert_StronglySorted x l :
  all_valid l →
  StronglySorted not_older l →
  StronglySorted not_older (insert byPublished x l).
Proof.
  intros Hv Hl. induction Hl as [|y l Hl IH Hy].
  { repeat constructor. }
  apply Forall_cons in Hv as [Hvy Hv].
  destruct (decide (Date_gt (published y) (published x))) as [Hgt|Hgt].
  - rewrite insert_cons_behind by done. constructor; [by apply IH|].
    rewrite insert_Permutation. constructor; [|done].
    by apply Date_gt_not_older.
  - rewrite insert_cons_front by done.
    apply not_gt_not_older in Hgt.
    constructor; [by constructor|]. constructor; [done|].
    eapply Forall_impl; [exact Hy|]. intros z Hz.
    by eapply not_older_trans.
Qed.

Lemma toSorted_StronglySorted l :
  all_valid l → StronglySorted not_older (sortByPublished l).
Proof.
  unfold sortByPublished.
  induction l as [|x l IH]; intros Hv; [constructor|]. simpl.
  apply Forall_cons in Hv as [_ Hv]. apply insert_StronglySorted; [|auto].
  by eapply all_valid_Permutation; [symmetry; apply toSorted_Permutation|].
Qed.

Lemma toSorted_of_sorted l :
  StronglySorted not_older l → sortByPublished l = l.
Proof.
  unfold sortByPublished.
  induction 1 as [|x l Hl IH Hx]; [done|]. simpl. rewrite IH.
  destruct l as [|y l]; [done|].
  apply insert_cons_front, not_older_not_gt. by inversion Hx.
Qed.

Lemma insert_filter (d : Date) x l :
  filter (λ y, published y = d) (insert byPublished x l)
  = filter (λ y, published y = d) (x :: l).
Proof.
  induction l as [|y l IH]; [done|].
  destruct (decide (Date_gt (published y) (published x))) as [Hgt|Hgt].
  - rewrite insert_cons_behind by done.
    apply Date_gt_neq in Hgt.
    rewrite (filter_cons _ y), IH, !filter_cons.
    repeat case_decide; congruence.
  - by rewrite insert_cons_front.
Qed.

Lemma toSorted_filter (d : Date) l :
  filter (λ y, published y = d) (sortByPublished l)
  = filter (λ y, published y = d) l.
Proof.
  unfold sortByPublished.
  induction l as [|x l IH]; [done|]. simpl.
  rewrite insert_filter, !filter_cons. by rewrite IH.
Qed.

(** Two listings, both most recent first and with the same posts of every
    date in the same order, are the same listing. *)
Lemma stable_sorted_unique l m :
  all_valid l →
  StronglySorted not_older l → StronglySorted not_older m →
  (∀ d, filter (λ y, published y = d) l = filter (λ y, published y = d) m) →
  l = m.
Proof.
  intros Hv Hl. revert m. induction Hl as [|x l Hl IH Hx]; intros m Hm Hf.
  { destruct m as [|y m]; [done|].
    specialize (Hf (published y)). by rewrite filter_cons_True in Hf. }
  apply Forall_cons in Hv as [Hvx Hv].
  destruct m as [|y m].
  { specialize (Hf (published x)). by rewrite filter_cons_True in Hf. }
  apply StronglySorted_inv in Hm as [Hm Hy].
  assert (published x = published y) as Hxy.
  { assert (x ∈ y :: m) as Hxin.
    { eapply (list_elem_of_filter (λ z, published z = published x)).
      rewrite <-Hf, filter_cons_True by done. left. }
    assert (y ∈ x :: l) as Hyin.
    { eapply (list_elem_of_filter (λ z, published z = published y)).
      rewrite Hf, filter_cons_True by done. left. }
    apply elem_of_cons in Hxin as [->|Hxin]; [done|].
    apply elem_of_cons in Hyin as [->|Hyin]; [done|].
    rewrite Forall_forall in Hx, Hy, Hv.
    specialize (Hx _ Hyin). specialize (Hy _ Hxin). specialize (Hv _ Hyin).
    unfold not_older in Hx, Hy. simpl in Hv.
    destruct (published x), (published y); try done. f_equal. lia. }
  pose proof (Hf (published x)) as Hfx.
  rewrite filter_cons_True, (filter_cons_True _ y) in Hfx by done.
  injection Hfx as -> Hfx. f_equal. apply IH; [done..|].
  intros d. specialize (Hf d). rewrite !filter_cons in Hf.
  case_decide; [|done]. by simplify_eq.
Qed.

(** Whatever sequence of comparisons an engine makes: a rearrangement that
    is most recent first and keeps the posts of every date in their order
    is the one [sortByPublished] computes. *)
Lemma sortByPublished_unique l m :
  all_valid l →
  StronglySorted not_older m →
  (∀ d, filter (λ y, published y = d) m = filter (λ y, published y = d) l) →
  m = sortByPublished l.
Proof.
  intros Hv Hm Hf. symmetry. apply stable_sorted_unique; [| |done|].
  - by eapply all_valid_Permutation; [symmetry; apply toSorted_Permutation|].
  - by apply toSorted_StronglySorted.
  - intros d. by rewrite toSorted_filter, Hf.
Qed.
End order_facts.

(** ** Calls on the store *)

Section store_facts.
Context {T : Type} `{Published T}.

Lemma sortByPublished_call_spec (h : gmap positive (list T))
    (collection : positive) (l : list T) :
  h !! collection = Some l →
  Store.sortByPublished_call collection h
  = Some (fresh (dom h), <[fresh (dom h) := sortByPublished l]> h).
Proof.
  intros Hl. unfold Store.sortByPublished_call, Store.Array_toSorted.
  by rewrite Hl.
Qed.

Lemma fresh_not_allocated (h : gmap positive (list T)) :
  h !! fresh (dom h) = None.
Proof. apply not_elem_of_dom, is_fresh. Qed.
End store_facts.

(** ** Years, months and days *)

Ltac unfold_time :=
  unfold TimeFromYear, DayFromYear, Day, TimeWithinDay, msPerDay, msPerHour,
    msPerMinute, msPerSecond in *.

Lemma DayFromYear_next y : DayFromYear (y + 1) = DayFromYear y + DaysInYear y.
Proof.
  unfold DayFromYear, DaysInYear.
  repeat match goal with |- context [?a =? ?b] => destruct (Z.eqb_spec a b) end;
    simpl; Z.to_euclidean_division_equations; lia.
Qed.

Lemma DayFromYear_mono y y' : y ≤ y' → DayFromYear y ≤ DayFromYear y'.
Proof. unfold DayFromYear. intros. Z.to_euclidean_division_equations; lia. Qed.

Lemma YearFromTime_spec t :
  TimeFromYear (YearFromTime t) ≤ t < TimeFromYear (YearFromTime t + 1).
Proof.
  unfold YearFromTime. cbv zeta.
  set (y := 1970 + Day t * 400 / 146097).
  destruct (Z.ltb_spec t (TimeFromYear y)) as [Hlt|Hge].
  - split; [|by replace (y - 1 + 1) with y by lia].
    unfold_time. subst y. Z.to_euclidean_division_equations; lia.
  - destruct (Z.leb_spec (TimeFromYear (y + 1)) t) as [Hle|Hgt]; [|lia].
    split; [done|].
    unfold_time. subst y. Z.to_euclidean_division_equations; lia.
Qed.

(** [YearFromTime t] is the largest year that starts no later than [t]. *)
Lemma YearFromTime_largest t y :
  TimeFromYear y ≤ t ↔ y ≤ YearFromTime t.
Proof.
  pose proof (YearFromTime_spec t) as [Hlo Hhi]. split; intros Hy.
  - destruct (decide (y ≤ YearFromTime t)) as [|Hgt]; [done|]. exfalso.
    pose proof (DayFromYear_mono (YearFromTime t + 1) y ltac:(lia)).
    unfold TimeFromYear, msPerDay in *. lia.
  - pose proof (DayFromYear_mono y (YearFromTime t) Hy).
    unfold TimeFromYear, msPerDay in *. lia.
Qed.

Lemma DayWithinYear_range t :
  0 ≤ DayWithinYear t < DaysInYear (YearFromTime t).
Proof.
  pose proof (YearFromTime_spec t) as [Hlo Hhi].

  unfold DayWithinYear.
  pose proof (DayFromYear_next (YearFromTime t)) as Hn.
  unfold TimeFromYear, Day, msPerDay in *.
  Z.to_euclidean_division_equations; lia.
Qed.

Lemma DaysInYear_cases y : DaysInYear y = 365 ∨ DaysInYear y = 366.
Proof. unfold DaysInYear. repeat case_match; auto. Qed.

Lemma InLeapYear_DaysInYear t :
  DaysInYear (YearFromTime t) = 365 + InLeapYear t.
Proof.
  unfold InLeapYear. destruct (DaysInYear_cases (YearFromTime t)) as [->| ->];
    reflexivity.
Qed.

Lemma MonthFromTime_range t : 0 ≤ MonthFromTime t ≤ 11.
Proof. unfold MonthFromTime. cbv zeta. repeat case_match; lia. Qed.

Lemma Day_MakeDay t :
  MakeDay (YearFromTime t) (MonthFromTime t) (DateFromTime t) = Day t
  ∧ 1 ≤ DateFromTime t ≤ 31.
Proof.
  pose proof (DayWithinYear_range t) as Hr.
  pose proof (InLeapYear_DaysInYear t) as Hl.
  unfold MakeDay. fold (InLeapYear t).
  assert (InLeapYear t = 0 ∨ InLeapYear t = 1) as Hleap.
  { unfold InLeapYear. case_match; auto. }
  unfold DateFromTime, MonthFromTime. cbv zeta.
  unfold DayWithinYear in *.
  set (d := Day t - DayFromYear (YearFromTime t)) in *.
  repeat match goal with
         | |- context [?a <? ?b] => destruct (Z.ltb_spec a b)
         end; simpl; lia.
Qed.

Lemma TimeWithinDay_MakeTime t :
  MakeTime (HourFromTime t) (MinFromTime t) (SecFromTime t) (msFromTime t)
  = TimeWithinDay t.
Proof.
  unfold MakeTime, HourFromTime, MinFromTime, SecFromTime, msFromTime.
  unfold_time. Z.to_euclidean_division_equations; lia.
Qed.

(** The fields printed by [toISOString] determine the time value. *)
Lemma MakeDate_fields t :
  MakeDate (MakeDay (YearFromTime t) (MonthFromTime t) (DateFromTime t))
    (MakeTime (HourFromTime t) (MinFromTime t) (SecFromTime t) (msFromTime t))
  = t.
Proof.
  destruct (Day_MakeDay t) as [-> _]. rewrite TimeWithinDay_MakeTime.
  unfold MakeDate. unfold_time. Z.to_euclidean_division_equations; lia.
Qed.

Lemma time_fields_range t :
  0 ≤ HourFromTime t < 24 ∧ 0 ≤ MinFromTime t < 60
  ∧ 0 ≤ SecFromTime t < 60 ∧ 0 ≤ msFromTime t < 1000.
Proof.
  unfold HourFromTime, MinFromTime, SecFromTime, msFromTime. unfold_time.
  Z.to_euclidean_division_equations; lia.
Qed.

Lemma length_snoc_char (s : string) c :
  String.length (s +:+ String c "") = S (String.length s).
Proof. induction s as [|c' s IH]; simpl; [done|]. by rewrite IH. Qed.

Lemma length_pad width n : String.length (pad width n) = width.
Proof.
  revert n. induction width as [|w IH]; intros n; simpl; [done|].
  by rewrite length_snoc_char, IH.
Qed.

Lemma length_append (s1 s2 : string) :
  String.length (s1 +:+ s2) = (String.length s1 + String.length s2)%nat.
Proof. induction s1 as [|c s1 IH]; simpl; [done|]. by rewrite IH. Qed.

(** With a year from 0 to 9999 the string has the 24 characters of
    [YYYY-MM-DDTHH:mm:ss.sssZ]. *)
Lemma length_iso_string t :
  0 ≤ YearFromTime t ≤ 9999 → String.length (iso_string t) = 24%nat.
Proof.
  intros [Hlo Hhi]. unfold iso_string, year_string.
  destruct (Z.leb_spec 0 (YearFromTime t)); [|lia].
  destruct (Z.leb_spec (YearFromTime t) 9999); [|lia]. simpl andb. cbv iota.
  rewrite !length_append, !length_pad. reflexivity.
Qed.

(** ** The schema *)

Section zod_facts.
Implicit Types (path : list string) (v : value).

Lemma is_Ok_issues_of {A} (r : result (list ZodIssue) A) :
  is_Ok r = false → r = Err (issues_of r).
Proof. by destruct r. Qed.

Lemma is_Ok_ap {A B} (f : result (list ZodIssue) (A → B)) x :
  is_Ok (f <*> x) = is_Ok f && is_Ok x.
Proof. by destruct f, x. Qed.

Lemma issues_of_ap {A B} (f : result (list ZodIssue) (A → B)) x :
  issues_of (f <*> x) = issues_of f ++ issues_of x.
Proof. destruct f, x; simpl; by rewrite ?app_nil_r. Qed.

Lemma is_Ok_string path v : is_Ok (string_ path v) = is_text v.
Proof. by destruct v. Qed.

Lemma is_Ok_date path v : is_Ok (date path v) = is_valid_date v.
Proof. by destruct v as [| | | | |[]| |]. Qed.

Lemma is_Ok_ostring path v : is_Ok (ostring path v) = absent_or_text v.
Proof. by destruct v. Qed.

Lemma issues_of_string path v :
  is_text v = false →
  issues_of (string_ path v)
  = [ {| code := invalid_type t_string (getParsedType v); path := path |} ].
Proof. by destruct v. Qed.

Lemma issues_of_date_type path v :
  (∀ d, v ≠ VDate d) →
  issues_of (date path v)
  = [ {| code := invalid_type t_date (getParsedType v); path := path |} ].
Proof. intros Hv. destruct v; try done. by destruct (Hv d). Qed.
End zod_facts.

Section schema_facts.
Implicit Types (data : gmap string value).

Lemma get_absent data key : data !! key = None → get data key = VUndefined.
Proof. unfold get. by intros ->. Qed.

Lemma get_present data key v : data !! key = Some v → get data key = v.
Proof. unfold get. by intros ->. Qed.

Lemma is_Ok_postsCollection data :
  is_Ok (postsCollection data)
  = is_text (get data "title") && is_text (get data "description")
    && is_valid_date (get data "published")
    && absent_or_text (get data "og_image_path").
Proof.
  unfold postsCollection.
  by rewrite !is_Ok_ap, !is_Ok_string, is_Ok_date, is_Ok_ostring.
Qed.

Lemma issues_of_postsCollection data :
  issues_of (postsCollection data)
  = issues_of (string_ ["title"] (get data "title"))
    ++ issues_of (string_ ["description"] (get data "description"))
    ++ issues_of (date ["published"] (get data "published"))
    ++ issues_of (ostring ["og_image_path"] (get data "og_image_path")).
Proof.
  unfold postsCollection. rewrite !issues_of_ap. simpl.
  by rewrite <-!app_assoc.
Qed.

Lemma postsCollection_Ok data t d ts :
  get data "title" = VString t →
  get data "description" = VString d →
  get data "published" = VDate (ValidDate ts) →
  absent_or_text (get data "og_image_path") = true →
  postsCollection data
  = Ok {| title := t; description := d; data_published := ValidDate ts;
          og_image_path :=
            match get data "og_image_path" with
            | VString s => Some s
            | _ => None
            end |}.
Proof.
  intros Ht Hd Hp Ho. unfold postsCollection. rewrite Ht, Hd, Hp. simpl.
  by destruct (get data "og_image_path").
Qed.

Lemma postsCollection_valid_date data p :
  postsCollection data = Ok p → is_valid (data_published p) = true.
Proof.
  unfold postsCollection.
  destruct (string_ _ _), (string_ _ _), (date _ _) as [dt|] eqn:Hd,
    (ostring _ _); simpl; try done.
  intros [= <-]. simpl.
  destruct (get data "published") as [| | | | |[]| |]; simpl in Hd; by simplify_eq.
Qed.

Lemma postsCollection_Err data :
  is_Ok (postsCollection data) = false →
  postsCollection data = Err (issues_of (postsCollection data)).
Proof. apply is_Ok_issues_of. Qed.
End schema_facts.

(** ** The loader and the page *)

Section mapM_facts.
Context {E A B : Type} (f : A → result E B).

Lemma mapM_result_Ok (l : list A) (ys : list B) :
  mapM_result f l = Ok ys ↔ Forall2 (λ x y, f x = Ok y) l ys.
Proof.
  revert ys. induction l as [|x l IH]; intros ys; simpl.
  - split; [intros [= <-]; constructor|by inversion 1].
  - split.
    + destruct (f x) as [y|e] eqn:Hx; simpl; [|done].
      destruct (mapM_result f l) as [ys'|e]; simpl; [|done].
      intros [= <-]. constructor; [done|by apply IH].
    + inversion 1 as [|? y ? ys' Hy Hys]; subst. rewrite Hy. simpl.
      apply IH in Hys. by rewrite Hys.
Qed.

Lemma mapM_result_total (l : list A) :
  Forall (λ x, is_Ok (f x) = true) l → ∃ ys, mapM_result f l = Ok ys.
Proof.
  induction 1 as [|x l Hx _ [ys IH]]; simpl; [by eexists|].
  destruct (f x); [|done]. rewrite IH. by eexists.
Qed.

Lemma mapM_result_first_Err (pre post : list A) x e :
  Forall (λ x, is_Ok (f x) = true) pre → f x = Err e →
  mapM_result f (pre ++ x :: post) = Err e.
Proof.
  intros Hpre Hx. induction Hpre as [|z pre Hz _ IH]; simpl.
  - by rewrite Hx.
  - destruct (f z); [|done]. simpl. by rewrite IH.
Qed.

Lemma mapM_result_elem_Err (l : list A) x :
  x ∈ l → is_Ok (f x) = false → is_Ok (mapM_result f l) = false.
Proof.
  intros Hin Hx. induction Hin as [x l|x z l Hin IH]; simpl.
  - by destruct (f x).
  - specialize (IH Hx). destruct (f z); [|done]. simpl.
    destruct (mapM_result f l); [discriminate IH|done].
Qed.

Lemma mapM_result_length (l : list A) ys :
  mapM_result f l = Ok ys → length ys = length l.
Proof. intros Hl%mapM_result_Ok. symmetry. by eapply Forall2_length. Qed.

Lemma mapM_result_lookup (l : list A) ys (i : nat) y :
  mapM_result f l = Ok ys → ys !! i = Some y →
  ∃ x, l !! i = Some x ∧ f x = Ok y.
Proof.
  intros Hl%mapM_result_Ok Hy.
  destruct (Forall2_lookup_r _ _ _ _ _ Hl Hy) as (x & Hx & Hxy). eauto.
Qed.
End mapM_facts.

Section loader_facts.
Implicit Types (store : list Document) (doc : Document).

Lemma is_Ok_getEntryData postsCollection c doc :
  is_Ok (getEntryData postsCollection c doc) = is_Ok (postsCollection (doc_frontmatter doc)).
Proof. unfold getEntryData. by destruct (postsCollection _). Qed.

Lemma getEntryData_Err c doc :
  is_Ok (postsCollection (doc_frontmatter doc)) = false →
  getEntryData postsCollection c doc
  = Err (InvalidContentEntryFrontmatterError c (doc_id doc)
           (issues_of (postsCollection (doc_frontmatter doc)))).
Proof. unfold getEntryData. by destruct (postsCollection _). Qed.

Lemma getEntryData_Ok c doc post :
  getEntryData postsCollection c doc = Ok post →
  postsCollection (doc_frontmatter doc) = Ok (data post)
  ∧ id post = doc_id doc ∧ slug post = doc_slug doc.
Proof.
  unfold getEntryData. destruct (postsCollection _); [|done].
  by intros [= <-].
Qed.

Lemma getEntryData_valid c doc post :
  getEntryData postsCollection c doc = Ok post → is_valid (published post) = true.
Proof.
  intros (Hp & _)%getEntryData_Ok. by apply postsCollection_valid_date in Hp.
Qed.

(** A [Date] object is truthy: the filter of the page keeps every entry. *)
Lemma posts_unfiltered store :
  posts store = mapM_result (getEntryData postsCollection "posts") store.
Proof.
  unfold posts, getCollection.
  replace (collections !! "posts") with (Some postsCollection) by reflexivity.
  destruct (mapM_result _ store) as [entries|]; [|done]. simpl. f_equal.
  induction entries as [|e entries IH]; [done|].
  by rewrite filter_cons_True, IH.
Qed.

Lemma posts_from_store store ps post :
  posts store = Ok ps → post ∈ ps →
  ∃ doc, doc ∈ store ∧ getEntryData postsCollection "posts" doc = Ok post.
Proof.
  rewrite posts_unfiltered. intros Hps [i Hi]%list_elem_of_lookup_1.
  destruct (mapM_result_lookup _ _ _ _ _ Hps Hi) as (doc & Hdoc & Hpost).
  exists doc. split; [by eapply list_elem_of_lookup_2|done].
Qed.

Lemma posts_all_valid store ps : posts store = Ok ps → all_valid ps.
Proof.
  intros Hps. apply Forall_forall. intros post Hpost.
  destruct (posts_from_store _ _ _ Hps Hpost) as (doc & _ & Hdoc).
  by eapply getEntryData_valid.
Qed.
End loader_facts.

Section blog_facts.
Variable toLocaleString : Date → DateTimeFormatOptions → string.

Lemma li_valid post :
  is_valid (published post) = true → is_Ok (li toLocaleString post) = true.
Proof.
  unfold li, published, CollectionEntry_published.
  by destruct (data_published (data post)).
Qed.

Lemma li_Ok post item :
  li toLocaleString post = Ok item →
  ∃ t, published post = ValidDate t
    ∧ href item = "/blog/" +:+ slug post
    ∧ datetime item = iso_string t
    ∧ time_text item = humanTime toLocaleString (ValidDate t)
    ∧ h3_text item = title (data post)
    ∧ p_text item = description (data post).
Proof.
  unfold li, published, CollectionEntry_published.
  destruct (data_published (data post)) as [t|]; [|done]. simpl.
  intros [= <-]. by exists t.
Qed.
End blog_facts.

Lemma missing_published_issue data :
  data !! "published" = None →
  {| code := invalid_type t_date t_undefined; path := ["published"] |}
  ∈ issues_of (postsCollection data).
Proof.
  intros Hp%get_absent. rewrite issues_of_postsCollection, Hp.
  do 2 (apply elem_of_app; right). apply elem_of_app. left.
  apply list_elem_of_here.
Qed.

Lemma not_Ok_ne {E A} (r : result E A) a : is_Ok r = false → r ≠ Ok a.
Proof. by intros Hr ->. Qed.

Lemma blog_posts_Err tls store :
  is_Ok (posts store) = false → is_Ok (blog tls store) = false.
Proof. unfold blog. by destruct (posts store). Qed.

Lemma posts_elem_Err store doc :
  doc ∈ store → is_Ok (postsCollection (doc_frontmatter doc)) = false →
  is_Ok (posts store) = false.
Proof.
  intros Hin Hdoc. rewrite posts_unfiltered.
  eapply mapM_result_elem_Err; [done|]. by rewrite is_Ok_getEntryData.
Qed.

Lemma posts_first_Err pre doc post :
  Forall (λ d, is_Ok (postsCollection (doc_frontmatter d)) = true) pre →
  is_Ok (postsCollection (doc_frontmatter doc)) = false →
  posts (pre ++ doc :: post)
  = Err (InvalidContentEntryFrontmatterError "posts" (doc_id doc)
           (issues_of (postsCollection (doc_frontmatter doc)))).
Proof.
  intros Hpre Hdoc. rewrite posts_unfiltered.
  apply mapM_result_first_Err; [|by apply getEntryData_Err].
  eapply Forall_impl; [exact Hpre|]. intros d Hd. by rewrite is_Ok_getEntryData.
Qed.


(** * The pipeline on the posts of the site *)

Example site_entries : posts site = Ok site_posts.
Proof. reflexivity. Qed.

Example site_listing :
  blog (λ _ _, "") site
  = Ok [ {| href := "/blog/verifying-slack-requests-elixir-phoenix";
            datetime := "2024-04-27T12:00:00.000Z";
            time_text := "";
            h3_text := "Verifying Slack Requests in Phoenix";
            p_text := "Using signature verification to ensure the authenticity of requests from Slack's Events API" |};
         {| href := "/blog/openai-streaming-elixir-phoenix-part-3";
            datetime := "2024-03-03T12:00:00.000Z";
            time_text := "";
            h3_text := "Streaming OpenAI in Elixir Phoenix Part III";
            p_text := "Using LiveView to create a streaming chat playground" |};
         {| href := "/blog/openai-streaming-elixir-phoenix-part-2";
            datetime := "2024-01-08T12:00:00.000Z";
            time_text := "";
            h3_text := "Streaming OpenAI in Elixir Phoenix Part II";
            p_text := "Making our parser robust to HTTP buffering" |} ].
Proof. reflexivity. Qed.

Example iso_string_epoch : iso_string 0 = "1970-01-01T00:00:00.000Z".
Proof. reflexivity. Qed.

Example iso_string_before_epoch : iso_string (-1) = "1969-12-31T23:59:59.999Z".
Proof. reflexivity. Qed.

Example iso_string_leap_day :
  iso_string 1709251199999 = "2024-02-29T23:59:59.999Z".
Proof. reflexivity. Qed.

Example iso_string_last_instant :
  iso_string 8640000000000000 = "+275760-09-13T00:00:00.000Z".
Proof. reflexivity. Qed.

Example iso_string_first_instant :
  iso_string (-8640000000000000) = "-271821-04-20T00:00:00.000Z".
Proof. reflexivity. Qed.

Example sortByPublished_tie :
  slug <$> sortByPublished posts_with_tie = ["d"; "b"; "a"; "c"].
Proof. reflexivity. Qed.

(** With an invalid date among the posts the comparator answers NaN for
    every pair with it, and the order of the others is no longer told by
    their dates. *)
Example sortByPublished_invalid_date :
  slug <$> sortByPublished
             [entry "old" (ValidDate 1); entry "none" InvalidDate;
              entry "new" (ValidDate 2)]
  = ["old"; "none"; "new"].
Proof. reflexivity. Qed.

(** * The claims *)

(** ** C1 *)

(** A document with a title and a description and no [published] is not
    accepted by the schema. *)
Lemma draft_is_rejected :
  draft_frontmatter !! "published" = None
  ∧ is_text (get draft_frontmatter "title") = true
  ∧ is_text (get draft_frontmatter "description") = true
  ∧ absent_or_text (get draft_frontmatter "og_image_path") = true
  ∧ is_Ok (postsCollection draft_frontmatter) = false.
Proof. by vm_compute. Qed.

(** C1, as the code has it: a document whose frontmatter has no [published]
    is rejected by the schema, with an issue that names the field
    [published]; a collection that holds such a document does not build, so
    neither the posts nor the page exist; no entry is made from the document,
    and every post of the filtered and sorted listing is the entry of a
    document of the collection whose [published] is a valid date. *)
Theorem published_is_required (data : gmap string value) :
  data !! "published" = None →
  (∃ issues, postsCollection data = Err issues
     ∧ {| code := invalid_type t_date t_undefined; path := ["published"] |}
       ∈ issues)
  ∧ (∀ tls store doc, doc ∈ store → doc_frontmatter doc = data →
       is_Ok (posts store) = false ∧ is_Ok (blog tls store) = false)
  ∧ (∀ store ps post doc, posts store = Ok ps → post ∈ sortByPublished ps →
       doc_frontmatter doc = data → getEntryData postsCollection "posts" doc ≠ Ok post)
  ∧ (∀ store ps post, posts store = Ok ps → post ∈ sortByPublished ps →
       ∃ doc, doc ∈ store ∧ getEntryData postsCollection "posts" doc = Ok post
         ∧ is_valid_date (get (doc_frontmatter doc) "published") = true).
Proof.
  intros Hp.
  assert (is_Ok (postsCollection data) = false) as Hrej.
  { rewrite is_Ok_postsCollection, (get_absent _ _ Hp). simpl.
    by rewrite andb_false_r. }
  split_and!.
  - exists (issues_of (postsCollection data)).
    split; [by apply postsCollection_Err|by apply missing_published_issue].
  - intros tls store doc Hin <-.
    assert (is_Ok (posts store) = false) by by eapply posts_elem_Err.
    split; [done|by apply blog_posts_Err].
  - intros store ps post doc _ _ <-. apply not_Ok_ne.
    by rewrite is_Ok_getEntryData.
  - intros store ps post Hps Hpost.
    unfold sortByPublished in Hpost. rewrite toSorted_Permutation in Hpost.
    destruct (posts_from_store _ _ _ Hps Hpost) as (doc & Hin & Hdoc).
    exists doc. split_and!; [done..|].
    assert (is_Ok (postsCollection (doc_frontmatter doc)) = true) as Hok.
    { rewrite <-(is_Ok_getEntryData postsCollection "posts"). by rewrite Hdoc. }
    rewrite is_Ok_postsCollection in Hok.
    by repeat (apply andb_prop in Hok as [Hok ?]).
Qed.

Lemma published_is_required_witness :
  (∃ issues, postsCollection draft_frontmatter = Err issues
     ∧ {| code := invalid_type t_date t_undefined; path := ["published"] |}
       ∈ issues)
  ∧ (∀ tls store doc, doc ∈ store → doc_frontmatter doc = draft_frontmatter →
       is_Ok (posts store) = false ∧ is_Ok (blog tls store) = false)
  ∧ (∀ store ps post doc, posts store = Ok ps → post ∈ sortByPublished ps →
       doc_frontmatter doc = draft_frontmatter →
       getEntryData postsCollection "posts" doc ≠ Ok post)
  ∧ (∀ store ps post, posts store = Ok ps → post ∈ sortByPublished ps →
       ∃ doc, doc ∈ store ∧ getEntryData postsCollection "posts" doc = Ok post
         ∧ is_valid_date (get (doc_frontmatter doc) "published") = true).
Proof. apply (published_is_required draft_frontmatter). reflexivity. Defined.

(** ** C2 *)

(** A title and a description of text type do not make a document accepted
    when [published] is absent. *)
Lemma draft_with_image_is_rejected :
  is_text (get draft_with_image_frontmatter "title") = true
  ∧ is_text (get draft_with_image_frontmatter "description") = true
  ∧ draft_with_image_frontmatter !! "published" = None
  ∧ is_Ok (postsCollection draft_with_image_frontmatter) = false.
Proof. by vm_compute. Qed.

(** C2, as the code has it: a document whose frontmatter has a [title] and
    a [description] of text type and a [published] that is a valid date is
    accepted whether [og_image_path] is absent or a text; the record keeps
    the values as they are. *)
Theorem og_image_path_is_optional (data : gmap string value) t d ts :
  data !! "title" = Some (VString t) →
  data !! "description" = Some (VString d) →
  data !! "published" = Some (VDate (ValidDate ts)) →
  (data !! "og_image_path" = None →
     postsCollection data
     = Ok {| title := t; description := d; data_published := ValidDate ts;
             og_image_path := None |})
  ∧ (∀ s, data !! "og_image_path" = Some (VString s) →
       postsCollection data
       = Ok {| title := t; description := d; data_published := ValidDate ts;
               og_image_path := Some s |}).
Proof.
  intros Ht%get_present Hd%get_present Hp%get_present. split.
  - intros Ho%get_absent.
    rewrite (postsCollection_Ok data t d ts), Ho by (by rewrite ?Ho). done.
  - intros s Ho%get_present.
    rewrite (postsCollection_Ok data t d ts), Ho by (by rewrite ?Ho). done.
Qed.

Lemma og_image_path_is_optional_witness :
  (doc_frontmatter streaming_part_2 !! "og_image_path" = None →
     postsCollection (doc_frontmatter streaming_part_2)
     = Ok (data part_2_entry))
  ∧ (∀ s, doc_frontmatter streaming_part_2 !! "og_image_path"
          = Some (VString s) →
       postsCollection (doc_frontmatter streaming_part_2)
       = Ok {| title := title (data part_2_entry);
               description := description (data part_2_entry);
               data_published := ValidDate 1704715200000;
               og_image_path := Some s |}).
Proof.
  apply (og_image_path_is_optional (doc_frontmatter streaming_part_2));
    reflexivity.
Defined.

(** ** C3 *)

(** A document whose title and description are the empty string is
    accepted. *)
Lemma blank_is_accepted :
  get blank_frontmatter "title" = VString ""
  ∧ get blank_frontmatter "description" = VString ""
  ∧ postsCollection blank_frontmatter
    = Ok {| title := ""; description := "";
            data_published := ValidDate 1704628800000;
            og_image_path := None |}.
Proof. by vm_compute. Qed.

(** C3, as the code has it: [title] and [description] must be text and may
    be empty.  A document whose title or description is the empty string is
    accepted, with the empty string kept, when its [published] is a valid
    date and its [og_image_path] is absent or a text. *)
Theorem text_may_be_empty (data : gmap string value) t d :
  data !! "title" = Some (VString t) →
  data !! "description" = Some (VString d) →
  t = "" ∨ d = "" →
  is_valid_date (get data "published") = true →
  absent_or_text (get data "og_image_path") = true →
  ∃ p, postsCollection data = Ok p ∧ title p = t ∧ description p = d.
Proof.
  intros Ht%get_present Hd%get_present _ Hp Ho.
  destruct (get data "published") as [| | | | |[ts|]| |] eqn:Hpub; try done.
  eexists. split; [by apply (postsCollection_Ok data t d ts)|done].
Qed.

Lemma text_may_be_empty_witness :
  ∃ p, postsCollection blank_frontmatter = Ok p
    ∧ title p = "" ∧ description p = "".
Proof.
  apply (text_may_be_empty blank_frontmatter "" "");
    [reflexivity|reflexivity|left; reflexivity|reflexivity|reflexivity].
Defined.

(** ** C4 *)

(** Title, description and date present and well typed, and the document is
    rejected all the same: its [og_image_path] is a number. *)
Lemma numbered_image_is_rejected :
  is_text (get numbered_image_frontmatter "title") = true
  ∧ is_text (get numbered_image_frontmatter "description") = true
  ∧ is_valid_date (get numbered_image_frontmatter "published") = true
  ∧ is_Ok (postsCollection numbered_image_frontmatter) = false.
Proof. by vm_compute. Qed.

(** C4, as the code has it: a document whose [title] or [description] is
    missing or not a text is rejected, with an issue that names the field;
    the build of a collection with this document fails, and when the
    documents before it are fine the error names the collection, this
    document and these issues.  A document is accepted if and only if
    [title] and [description] are text, [published] is a valid date and
    [og_image_path] is absent or a text. *)
Theorem title_and_description_are_required (data : gmap string value) :
  is_text (get data "title") = false
  ∨ is_text (get data "description") = false →
  (∃ issues, postsCollection data = Err issues
     ∧ (is_text (get data "title") = false →
          {| code := invalid_type t_string (getParsedType (get data "title"));
             path := ["title"] |} ∈ issues)
     ∧ (is_text (get data "description") = false →
          {| code := invalid_type t_string
                       (getParsedType (get data "description"));
             path := ["description"] |} ∈ issues)
     ∧ (∀ tls pre doc post,
          doc_frontmatter doc = data →
          Forall (λ d, is_Ok (postsCollection (doc_frontmatter d)) = true) pre →
          blog tls (pre ++ doc :: post)
          = Err (InvalidContentEntryFrontmatterError "posts" (doc_id doc)
                   issues)))
  ∧ (∀ tls store doc, doc ∈ store → doc_frontmatter doc = data →
       is_Ok (blog tls store) = false)
  ∧ (∀ data' : gmap string value,
       is_Ok (postsCollection data') = true
       ↔ is_text (get data' "title") = true
         ∧ is_text (get data' "description") = true
         ∧ is_valid_date (get data' "published") = true
         ∧ absent_or_text (get data' "og_image_path") = true).
Proof.
  intros Hbad.
  assert (is_Ok (postsCollection data) = false) as Hrej.
  { rewrite is_Ok_postsCollection. destruct Hbad as [-> | ->]; [done|].
    by rewrite andb_false_r. }
  split_and!.
  - exists (issues_of (postsCollection data)). split_and!.
    + by apply postsCollection_Err.
    + intros Ht. rewrite issues_of_postsCollection, issues_of_string by done.
      apply elem_of_app. left. apply list_elem_of_here.
    + intros Hd.
      rewrite issues_of_postsCollection, (issues_of_string ["description"])
        by done.
      apply elem_of_app. right. apply elem_of_app. left.
      apply list_elem_of_here.
    + intros tls pre doc post <- Hpre. unfold blog.
      by rewrite posts_first_Err.
  - intros tls store doc Hin <-. apply blog_posts_Err.
    by eapply posts_elem_Err.
  - intros data'. rewrite is_Ok_postsCollection, !andb_true_iff. tauto.
Qed.

Lemma title_and_description_are_required_witness :
  (∃ issues, postsCollection untitled_frontmatter = Err issues
     ∧ {| code := invalid_type t_string t_undefined; path := ["title"] |}
       ∈ issues
     ∧ ∀ tls, blog tls (site ++ [untitled_document])
              = Err (InvalidContentEntryFrontmatterError "posts" "untitled.md"
                       issues))
  ∧ ∀ tls, is_Ok (blog tls (untitled_document :: site)) = false.
Proof.
  destruct (title_and_description_are_required untitled_frontmatter)
    as ((issues & Hrej & Htitle & _ & Hbuild) & Hany & _);
    [left; reflexivity|].
  split.
  - exists issues. split_and!; [exact Hrej|apply Htitle; reflexivity|].
    intros tls. apply (Hbuild tls site untitled_document []); [reflexivity|].
    repeat constructor.
  - intros tls. apply (Hany tls _ untitled_document); [left|reflexivity].
Defined.

Section sorting_claims.
Context {T : Type} `{Published T}.
Implicit Types (l : list T) (A B : T).

(** ** C5 *)

(** C5: for posts with valid dates, whenever [A] and [B] are among the
    input and the date of [A] is strictly greater than the date of [B], both
    are in the output of [sortByPublished] and every place of [A] there is
    before every place of [B]: the output is most recent first. *)
Theorem sortByPublished_most_recent_first l A B :
  all_valid l → A ∈ l → B ∈ l →
  Date_gt (published A) (published B) →
  (∃ i j, sortByPublished l !! i = Some A ∧ sortByPublished l !! j = Some B)
  ∧ ∀ i j, sortByPublished l !! i = Some A →
           sortByPublished l !! j = Some B → (i < j)%nat.
Proof.
  intros Hv HA HB Hgt.
  assert (∀ i j, sortByPublished l !! i = Some A →
                 sortByPublished l !! j = Some B → (i < j)%nat) as Hord.
  { intros i j Hi Hj. destruct (decide (i < j)%nat) as [|Hge]; [done|].
    exfalso. destruct (decide (i = j)) as [->|Hne].
    - rewrite Hi in Hj. injection Hj as ->.
      unfold Date_gt in Hgt. destruct (published B); lia.
    - assert (not_older B A) as Hba.
      { apply (StronglySorted_lookup_lt _ (sortByPublished l) j i);
          [by apply toSorted_StronglySorted|done..|lia]. }
      by apply not_older_not_gt in Hba. }
  split; [|done].
  unfold sortByPublished in *.
  rewrite <-(toSorted_Permutation l) in HA, HB.
  apply list_elem_of_lookup_1 in HA as [i Hi].
  apply list_elem_of_lookup_1 in HB as [j Hj]. eauto.
Qed.

(** ** C6 *)

(** C6: a call of [sortByPublished] on an array of the store returns a
    reference that was not allocated before, so it is not the input; the
    new array holds the sorted elements, and the input array, like every
    other array of the store, holds the elements it held before the call, in
    the same order. *)
Theorem sortByPublished_preserves_input (h : gmap positive (list T))
    (collection : positive) l :
  h !! collection = Some l →
  ∃ r h', Store.sortByPublished_call collection h = Some (r, h')
    ∧ h' !! collection = Some l
    ∧ r ≠ collection ∧ h !! r = None
    ∧ h' !! r = Some (sortByPublished l)
    ∧ ∀ r', r' ≠ r → h' !! r' = h !! r'.
Proof.
  intros Hl. eexists _, _. split; [by apply sortByPublished_call_spec|].
  pose proof (fresh_not_allocated h) as Hfresh.
  assert (fresh (dom h) ≠ collection) as Hne by congruence.
  split_and!;
    [by rewrite lookup_insert_ne|done|done|by rewrite lookup_insert_eq|].
  intros r' Hr'. by rewrite lookup_insert_ne.
Qed.

(** ** C7 *)

(** C7: for posts with valid dates, sorting the output of [sortByPublished]
    again gives that output. *)
Theorem sortByPublished_idempotent l :
  all_valid l →
  sortByPublished (sortByPublished l) = sortByPublished l.
Proof. intros Hv. by apply toSorted_of_sorted, toSorted_StronglySorted. Qed.

(** ** C9 *)

(** C9: for posts with valid dates, [sortByPublished] is stable.  The posts
    of any one date stand in the output in the order they have in the input;
    so when [A] is before [B] in the input and their dates are equal, [A] is
    before [B] in the output.  Two calls on the same array of the store give
    two arrays with the same elements in the same order. *)
Theorem sortByPublished_stable l :
  all_valid l →
  (∀ d, filter (λ x, published x = d) (sortByPublished l)
        = filter (λ x, published x = d) l)
  ∧ (∀ A B l1 l2 l3,
       published A = published B →
       l = l1 ++ A :: l2 ++ B :: l3 →
       ∃ m1 m2 m3, sortByPublished l = m1 ++ A :: m2 ++ B :: m3)
  ∧ (∀ (h : gmap positive (list T)) collection,
       h !! collection = Some l →
       ∃ r1 h1 r2 h2,
         Store.sortByPublished_call collection h = Some (r1, h1)
         ∧ Store.sortByPublished_call collection h1 = Some (r2, h2)
         ∧ r1 ≠ r2
         ∧ h2 !! r1 = Some (sortByPublished l)
         ∧ h2 !! r2 = Some (sortByPublished l)).
Proof.
  intros Hv. split_and!.
  - intros d. apply toSorted_filter.
  - intros A B l1 l2 l3 HAB ->.
    pose proof (toSorted_filter (published A) (l1 ++ A :: l2 ++ B :: l3)) as Hf.
    rewrite filter_app, filter_cons_True, filter_app, filter_cons_True in Hf
      by done.
    apply filter_eq_app_cons in Hf as (m1 & m' & Hm & _ & Hf).
    apply filter_eq_app_cons in Hf as (m2 & m3 & -> & _ & _).
    by exists m1, m2, m3.
  - intros h collection Hl.
    pose proof (fresh_not_allocated h) as Hfresh.
    set (r1 := fresh (dom h)) in *.
    set (h1 := <[r1 := sortByPublished l]> h).
    assert (r1 ≠ collection) as Hne by congruence.
    assert (h1 !! collection = Some l) as Hl1
      by (subst h1; by rewrite lookup_insert_ne).
    pose proof (fresh_not_allocated h1) as Hfresh1.
    set (r2 := fresh (dom h1)) in *.
    assert (r1 ≠ r2) as Hr.
    { intros Heq. rewrite <-Heq in Hfresh1. subst h1.
      by rewrite lookup_insert_eq in Hfresh1. }
    exists r1, h1, r2, (<[r2 := sortByPublished l]> h1).
    split_and!; [by apply sortByPublished_call_spec
                |by apply sortByPublished_call_spec|done| |].
    + rewrite lookup_insert_ne by done. subst h1. by rewrite lookup_insert_eq.
    + by rewrite lookup_insert_eq.
Qed.

(** ** C10 *)

(** C10: the output of [sortByPublished] is a permutation of its input: the
    same posts, each as many times, hence of the same length. *)
Theorem sortByPublished_permutation l :
  sortByPublished l ≡ₚ l
  ∧ length (sortByPublished l) = length l
  ∧ ∀ x, x ∈ sortByPublished l ↔ x ∈ l.
Proof.
  pose proof (toSorted_Permutation l) as Hp. fold (sortByPublished l) in Hp.
  split_and!; [done|by rewrite Hp|]. intros x. by rewrite Hp.
Qed.

End sorting_claims.

Lemma sortByPublished_most_recent_first_witness :
  (∃ i j, sortByPublished site_posts !! i = Some slack_entry
          ∧ sortByPublished site_posts !! j = Some part_2_entry)
  ∧ ∀ i j, sortByPublished site_posts !! i = Some slack_entry →
           sortByPublished site_posts !! j = Some part_2_entry → (i < j)%nat.
Proof.
  apply (sortByPublished_most_recent_first site_posts slack_entry part_2_entry).
  - repeat constructor.
  - apply list_elem_of_here.
  - apply list_elem_of_further, list_elem_of_here.
  - vm_compute. reflexivity.
Defined.

Lemma sortByPublished_preserves_input_witness :
  ∃ r h',
    Store.sortByPublished_call 1%positive {[ 1%positive := site_posts ]}
    = Some (r, h')
    ∧ h' !! 1%positive = Some site_posts
    ∧ r ≠ 1%positive
    ∧ ({[ 1%positive := site_posts ]} : gmap positive (list CollectionEntry))
        !! r = None
    ∧ h' !! r = Some (sortByPublished site_posts)
    ∧ ∀ r', r' ≠ r →
        h' !! r'
        = ({[ 1%positive := site_posts ]}
             : gmap positive (list CollectionEntry)) !! r'.
Proof.
  apply (sortByPublished_preserves_input {[ 1%positive := site_posts ]}
           1%positive site_posts).
  reflexivity.
Defined.

Lemma sortByPublished_idempotent_witness :
  sortByPublished (sortByPublished site_posts) = sortByPublished site_posts.
Proof. apply (sortByPublished_idempotent site_posts). repeat constructor. Defined.

Lemma sortByPublished_stable_witness :
  (∀ d, filter (λ x, published x = d) (sortByPublished posts_with_tie)
        = filter (λ x, published x = d) posts_with_tie)
  ∧ (∀ A B l1 l2 l3,
       published A = published B →
       posts_with_tie = l1 ++ A :: l2 ++ B :: l3 →
       ∃ m1 m2 m3, sortByPublished posts_with_tie = m1 ++ A :: m2 ++ B :: m3)
  ∧ (∀ (h : gmap positive (list CollectionEntry)) collection,
       h !! collection = Some posts_with_tie →
       ∃ r1 h1 r2 h2,
         Store.sortByPublished_call collection h = Some (r1, h1)
         ∧ Store.sortByPublished_call collection h1 = Some (r2, h2)
         ∧ r1 ≠ r2
         ∧ h2 !! r1 = Some (sortByPublished posts_with_tie)
         ∧ h2 !! r2 = Some (sortByPublished posts_with_tie)).
Proof. apply (sortByPublished_stable posts_with_tie). repeat constructor. Defined.

(** ** C8 *)

(** C8: when every document of the collection passes the schema, the page
    has one item for each post, in the order of [sortByPublished]; the [href]
    of the item is ["/blog/"] followed by the slug of its post, and its
    [datetime] is what [toISOString] gives for the date of the post, the
    string [iso_string] of its time value. *)
Theorem blog_items_link_and_timestamp
    (toLocaleString : Date → DateTimeFormatOptions → string)
    (store : list Document) :
  Forall (λ doc, is_Ok (postsCollection (doc_frontmatter doc)) = true) store →
  ∃ ps items,
    posts store = Ok ps
    ∧ blog toLocaleString store = Ok items
    ∧ length items = length ps
    ∧ ∀ (i : nat) item, items !! i = Some item →
        ∃ post t,
          sortByPublished ps !! i = Some post
          ∧ published post = ValidDate t
          ∧ href item = "/blog/" +:+ slug post
          ∧ toISOString (published post) = Ok (datetime item)
          ∧ datetime item = iso_string t.
Proof.
  intros Hstore.
  destruct (mapM_result_total (getEntryData postsCollection "posts") store) as [ps Hps].
  { eapply Forall_impl; [exact Hstore|]. intros doc Hdoc.
    by rewrite is_Ok_getEntryData. }
  rewrite <-posts_unfiltered in Hps.
  pose proof (posts_all_valid _ _ Hps) as Hvalid.
  destruct (mapM_result_total (li toLocaleString) (sortByPublished ps))
    as [items Hitems].
  { eapply Forall_impl; [|intros post; apply li_valid].
    eapply all_valid_Permutation; [|exact Hvalid].
    symmetry. apply toSorted_Permutation. }
  exists ps, items. split_and!; [done|unfold blog; by rewrite Hps| |].
  - rewrite (mapM_result_length _ _ _ Hitems).
    unfold sortByPublished. by rewrite toSorted_Permutation.
  - intros i item Hi.
    destruct (mapM_result_lookup _ _ _ _ _ Hitems Hi) as (post & Hpost & Hli).
    destruct (li_Ok _ _ _ Hli) as (t & Ht & Hhref & Hiso & _).
    exists post, t. split_and!; [done..| |done].
    by rewrite Ht, Hiso.
Qed.

Lemma blog_items_link_and_timestamp_witness :
  ∃ ps items,
    posts site = Ok ps
    ∧ blog (λ _ _, "") site = Ok items
    ∧ length items = length ps
    ∧ ∀ (i : nat) item, items !! i = Some item →
        ∃ post t,
          sortByPublished ps !! i = Some post
          ∧ published post = ValidDate t
          ∧ href item = "/blog/" +:+ slug post
          ∧ toISOString (published post) = Ok (datetime item)
          ∧ datetime item = iso_string t.
Proof.
  apply (blog_items_link_and_timestamp (λ _ _, "") site). repeat constructor.
Defined.

(** * More of the code *)

(** ** The comparator of [sortByPublished] and the order it gives *)

Lemma filter_none {A} (P : A → Prop) `{∀ x, Decision (P x)} (l : list A) :
  Forall (λ x, ¬ P x) l → filter P l = [].
Proof.
  induction 1 as [|x l Hx _ IH]; [done|]. by rewrite filter_cons_False.
Qed.

Lemma Permutation_short {A} (l m : list A) :
  l ≡ₚ m → (length l ≤ 1)%nat → l = m.
Proof.
  intros Hp Hl. destruct l as [|x [|??]]; simpl in Hl; [| |lia].
  - by apply Permutation_nil_l in Hp.
  - by apply Permutation_singleton_l in Hp.
Qed.

Section comparator.
Context {T : Type} `{Published T}.
Implicit Types (a b c : T) (l : list T).

Lemma SortCompare_antisym a b :
  SortCompare byPublished a b = - SortCompare byPublished b a.
Proof.
  destruct (published a) as [ta|] eqn:Ha, (published b) as [tb|] eqn:Hb;
    try (rewrite !SortCompare_invalid by auto; done).
  rewrite (SortCompare_valid _ _ _ _ Ha Hb), (SortCompare_valid _ _ _ _ Hb Ha).
  rewrite <-round_double_opp. f_equal. lia.
Qed.

Lemma filter_NoDup_fmap {B} `{EqDecision B} (f : T → B) (d : B) l :
  NoDup (f <$> l) → (length (filter (λ x, f x = d) l) ≤ 1)%nat.
Proof.
  induction l as [|x l IH]; [simpl; lia|].
  rewrite fmap_cons, NoDup_cons. intros [Hx Hl].
  rewrite filter_cons. case_decide as Hd; [|by apply IH]. simpl.
  rewrite filter_none; [simpl; lia|].
  apply Forall_forall. intros y Hy Hfy. apply Hx.
  rewrite Hd, <-Hfy. by apply list_elem_of_fmap_2.
Qed.

(** X1: on posts with valid dates the comparator of [sortByPublished] is a
    consistent comparator.  Swapping the arguments negates the result; the
    result is zero exactly for equal dates and negative exactly when the
    first post is the more recent one, also where the difference of the two
    time values is not a double; and "not after" is transitive. *)
Theorem byPublished_consistent a b c :
  is_valid (published a) = true →
  is_valid (published b) = true →
  is_valid (published c) = true →
  SortCompare byPublished a b = - SortCompare byPublished b a
  ∧ (SortCompare byPublished a b = 0 ↔ published a = published b)
  ∧ (SortCompare byPublished a b < 0 ↔ Date_gt (published a) (published b))
  ∧ (SortCompare byPublished a b ≤ 0 → SortCompare byPublished b c ≤ 0 →
     SortCompare byPublished a c ≤ 0).
Proof.
  intros Ha Hb Hc. split; [apply SortCompare_antisym|].
  destruct (published a) as [ta|] eqn:Ea; [|done].
  destruct (published b) as [tb|] eqn:Eb; [|done].
  destruct (published c) as [tc|] eqn:Ec; [|done].
  rewrite (SortCompare_valid _ _ _ _ Ea Eb), (SortCompare_valid _ _ _ _ Eb Ec),
    (SortCompare_valid _ _ _ _ Ea Ec).
  pose proof (round_double_sgn (tb - ta)).
  pose proof (round_double_sgn (tc - tb)).
  pose proof (round_double_sgn (tc - ta)).
  simpl. split_and!.
  - split; [intros ?; f_equal; lia|intros [= ->]].
    by rewrite Z.sub_diag.
  - lia.
  - lia.
Qed.

(** X2: when the posts have valid dates and no two of them the same date,
    the output of [sortByPublished] does not depend on the order of the
    input: two arrays with the same posts sort to the same sequence. *)
Theorem sortByPublished_order_independent l l' :
  l ≡ₚ l' → all_valid l → NoDup (published <$> l) →
  sortByPublished l = sortByPublished l'.
Proof.
  intros Hp Hv Hnd. apply sortByPublished_unique.
  - by eapply all_valid_Permutation.
  - by apply toSorted_StronglySorted.
  - intros d. rewrite toSorted_filter. apply Permutation_short.
    + by rewrite Hp.
    + by apply filter_NoDup_fmap.
Qed.

(** X3: for posts with valid dates, a sequence is the output of
    [sortByPublished] if and only if it is most recent first and holds, for
    every date, the posts of that date of the input in their input order. *)
Theorem sortByPublished_characterised l m :
  all_valid l →
  m = sortByPublished l
  ↔ StronglySorted not_older m
    ∧ ∀ d, filter (λ x, published x = d) m = filter (λ x, published x = d) l.
Proof.
  intros Hv. split.
  - intros ->. split; [by apply toSorted_StronglySorted|].
    intros d. apply toSorted_filter.
  - intros [Hm Hf]. by apply sortByPublished_unique.
Qed.
End comparator.

Lemma byPublished_consistent_witness :
  SortCompare byPublished slack_entry part_2_entry
  = - SortCompare byPublished part_2_entry slack_entry
  ∧ (SortCompare byPublished slack_entry part_2_entry = 0
     ↔ published slack_entry = published part_2_entry)
  ∧ (SortCompare byPublished slack_entry part_2_entry < 0
     ↔ Date_gt (published slack_entry) (published part_2_entry))
  ∧ (SortCompare byPublished slack_entry part_2_entry ≤ 0 →
     SortCompare byPublished part_2_entry part_3_entry ≤ 0 →
     SortCompare byPublished slack_entry part_3_entry ≤ 0).
Proof.
  apply (byPublished_consistent slack_entry part_2_entry part_3_entry);
    reflexivity.
Defined.

Lemma sortByPublished_order_independent_witness :
  sortByPublished site_posts = sortByPublished (reverse site_posts).
Proof.
  apply (sortByPublished_order_independent site_posts (reverse site_posts)).
  - symmetry. apply reverse_Permutation.
  - repeat constructor.
  - apply (bool_decide_unpack _). vm_compute. exact I.
Defined.

Lemma sortByPublished_characterised_witness :
  [slack_entry; part_3_entry; part_2_entry] = sortByPublished site_posts
  ↔ StronglySorted not_older [slack_entry; part_3_entry; part_2_entry]
    ∧ ∀ d, filter (λ x, published x = d)
             [slack_entry; part_3_entry; part_2_entry]
           = filter (λ x, published x = d) site_posts.
Proof.
  apply (sortByPublished_characterised site_posts). repeat constructor.
Defined.

(** ** The schema on any frontmatter *)

Lemma get_insert_ne (data : gmap string value) k v key :
  k ≠ key → get (<[k := v]> data) key = get data key.
Proof. intros Hne. unfold get. by rewrite lookup_insert_ne. Qed.

Lemma get_delete_ne (data : gmap string value) k key :
  k ≠ key → get (delete k data) key = get data key.
Proof. intros Hne. unfold get. by rewrite lookup_delete_ne. Qed.

Lemma paths_string p v :
  path <$> issues_of (string_ p v) = if is_text v then [] else [p].
Proof. by destruct v. Qed.

Lemma paths_date p v :
  path <$> issues_of (date p v) = if is_valid_date v then [] else [p].
Proof. by destruct v as [| | | | |[]| |]. Qed.

Lemma paths_ostring p v :
  path <$> issues_of (ostring p v) = if absent_or_text v then [] else [p].
Proof. by destruct v. Qed.

Lemma paths_postsCollection (data : gmap string value) :
  path <$> issues_of (postsCollection data)
  = (if is_text (get data "title") then [] else [["title"]])
    ++ (if is_text (get data "description") then [] else [["description"]])
    ++ (if is_valid_date (get data "published") then [] else [["published"]])
    ++ (if absent_or_text (get data "og_image_path") then []
        else [["og_image_path"]]).
Proof.
  rewrite issues_of_postsCollection, !fmap_app.
  by rewrite !paths_string, paths_date, paths_ostring.
Qed.

(** X4: the schema looks at its four keys only.  Adding, changing or
    removing any other key of the frontmatter changes neither whether the
    document is accepted, nor the record, nor the issues. *)
Theorem postsCollection_strips_other_keys (data : gmap string value) k v :
  k ∉ shape_keys →
  postsCollection (<[k := v]> data) = postsCollection data
  ∧ postsCollection (delete k data) = postsCollection data.
Proof.
  intros Hk. unfold shape_keys in Hk.
  rewrite !not_elem_of_cons in Hk. destruct Hk as (H1 & H2 & H3 & H4 & _).
  unfold postsCollection.
  by rewrite !get_insert_ne, !get_delete_ne.
Qed.

Lemma postsCollection_strips_other_keys_witness :
  postsCollection
    (<["series" := VString "OpenAI"]> (doc_frontmatter streaming_part_2))
  = postsCollection (doc_frontmatter streaming_part_2)
  ∧ postsCollection (delete "series" (doc_frontmatter streaming_part_2))
    = postsCollection (doc_frontmatter streaming_part_2).
Proof.
  apply (postsCollection_strips_other_keys _ "series").
  apply (bool_decide_unpack _). vm_compute. exact I.
Defined.

Lemma postsCollection_Ok_inv (data : gmap string value) p :
  postsCollection data = Ok p →
  get data "title" = VString (title p)
  ∧ get data "description" = VString (description p)
  ∧ get data "published" = VDate (data_published p)
  ∧ is_valid (data_published p) = true
  ∧ get data "og_image_path"
    = match og_image_path p with Some s => VString s | None => VUndefined end.
Proof.
  intros Hp.
  assert (is_Ok (postsCollection data) = true) as Hok by by rewrite Hp.
  rewrite is_Ok_postsCollection, !andb_true_iff in Hok.
  destruct Hok as (((Ht & Hd) & Hpub) & Hog).
  destruct (get data "title") as [| | | |t| | |] eqn:Et; try done.
  destruct (get data "description") as [| | | |d| | |] eqn:Ed; try done.
  destruct (get data "published") as [| | | | |[ts|]| |] eqn:Ep; try done.
  rewrite (postsCollection_Ok data t d ts) in Hp by (by rewrite ?Et, ?Ed, ?Ep).
  injection Hp as <-. simpl. split_and!; try done.
  by destruct (get data "og_image_path").
Qed.

(** X5: an accepted document comes out as it went in.  The title, the
    description and the date of the record are the values of the
    frontmatter, the date is a valid date, and [og_image_path] is the text of
    the frontmatter or absent where the frontmatter has none. *)
Theorem postsCollection_keeps_values (data : gmap string value) p :
  postsCollection data = Ok p →
  get data "title" = VString (title p)
  ∧ get data "description" = VString (description p)
  ∧ get data "published" = VDate (data_published p)
  ∧ is_valid (data_published p) = true
  ∧ get data "og_image_path"
    = match og_image_path p with Some s => VString s | None => VUndefined end.
Proof. apply postsCollection_Ok_inv. Qed.

Lemma postsCollection_keeps_values_witness :
  get (doc_frontmatter slack_post) "title" = VString (title (data slack_entry))
  ∧ get (doc_frontmatter slack_post) "description"
    = VString (description (data slack_entry))
  ∧ get (doc_frontmatter slack_post) "published"
    = VDate (data_published (data slack_entry))
  ∧ is_valid (data_published (data slack_entry)) = true
  ∧ get (doc_frontmatter slack_post) "og_image_path"
    = match og_image_path (data slack_entry) with
      | Some s => VString s
      | None => VUndefined
      end.
Proof.
  apply (postsCollection_keeps_values (doc_frontmatter slack_post)).
  reflexivity.
Defined.

(** X6: a rejection reports every offending field, not the first one only.
    The issues are not empty, their paths are keys of the schema in the order
    of the schema, each at most once, and a key is among them exactly when
    its value is not what the schema asks for. *)
Theorem postsCollection_reports_every_field (data : gmap string value) issues :
  postsCollection data = Err issues →
  issues ≠ []
  ∧ path <$> issues `sublist_of` (λ k, [k]) <$> shape_keys
  ∧ (["title"] ∈ path <$> issues ↔ is_text (get data "title") = false)
  ∧ (["description"] ∈ path <$> issues
     ↔ is_text (get data "description") = false)
  ∧ (["published"] ∈ path <$> issues
     ↔ is_valid_date (get data "published") = false)
  ∧ (["og_image_path"] ∈ path <$> issues
     ↔ absent_or_text (get data "og_image_path") = false).
Proof.
  intros Herr.
  assert (issues = issues_of (postsCollection data)) as -> by by rewrite Herr.
  assert (is_Ok (postsCollection data) = false) as Hok by by rewrite Herr.
  rewrite is_Ok_postsCollection in Hok.
  split.
  { intros Hnil. pose proof (paths_postsCollection data) as Hp.
    rewrite Hnil in Hp. simpl in Hp.
    destruct (is_text _), (is_text _), (is_valid_date _), (absent_or_text _);
      done. }
  rewrite paths_postsCollection. clear Herr.
  destruct (is_text (get data "title")), (is_text (get data "description")),
    (is_valid_date (get data "published")),
    (absent_or_text (get data "og_image_path")); simpl; clear Hok;
    (split;
     [repeat first [apply sublist_nil | apply sublist_skip
                   | apply sublist_cons ]|]);
    rewrite ?elem_of_cons, ?elem_of_nil; intuition congruence.
Qed.

Lemma postsCollection_reports_every_field_witness :
  ∃ issues, postsCollection mistyped_frontmatter = Err issues
  ∧ issues ≠ []
  ∧ path <$> issues `sublist_of` (λ k, [k]) <$> shape_keys
  ∧ (["title"] ∈ path <$> issues
     ↔ is_text (get mistyped_frontmatter "title") = false)
  ∧ (["description"] ∈ path <$> issues
     ↔ is_text (get mistyped_frontmatter "description") = false)
  ∧ (["published"] ∈ path <$> issues
     ↔ is_valid_date (get mistyped_frontmatter "published") = false)
  ∧ (["og_image_path"] ∈ path <$> issues
     ↔ absent_or_text (get mistyped_frontmatter "og_image_path") = false).
Proof.
  eexists. split; [reflexivity|].
  apply (postsCollection_reports_every_field mistyped_frontmatter).
  reflexivity.
Defined.

(** X7: [published] must be a [Date] object with a valid time value.  Any
    other value, a text that looks like a date included, is rejected with an
    issue on [published]: [invalid_date] for an invalid [Date], [invalid_type]
    with the type received for everything else. *)
Theorem published_must_be_a_valid_Date (data : gmap string value) :
  is_valid_date (get data "published") = false →
  ∃ issues, postsCollection data = Err issues
    ∧ {| code := date_issue_code (get data "published");
         path := ["published"] |} ∈ issues.
Proof.
  intros Hp.
  assert (is_Ok (postsCollection data) = false) as Hrej.
  { rewrite is_Ok_postsCollection, Hp. by rewrite andb_false_r. }
  exists (issues_of (postsCollection data)).
  split; [by apply postsCollection_Err|].
  rewrite issues_of_postsCollection.
  do 2 (apply elem_of_app; right). apply elem_of_app. left.
  destruct (get data "published") as [| | | | |[]| |]; try done;
    apply list_elem_of_here.
Qed.

Lemma published_must_be_a_valid_Date_witness :
  ∃ issues, postsCollection text_date_frontmatter = Err issues
    ∧ {| code := invalid_type t_date t_string; path := ["published"] |}
      ∈ issues.
Proof.
  apply (published_must_be_a_valid_Date text_date_frontmatter). reflexivity.
Defined.

(** ** The loader and the page on any collection *)

Section loader_more.
Context {E A B : Type} (f : A → result E B).


End loader_more.



Section page_more.
Variable toLocaleString : Date → DateTimeFormatOptions → string.





End page_more.




(** ** The [datetime] attribute *)

Lemma append_inj_length (s1 s2 r1 r2 : string) :
  String.length s1 = String.length s2 →
  s1 +:+ r1 = s2 +:+ r2 → s1 = s2 ∧ r1 = r2.
Proof.
  revert s2. induction s1 as [|c s1 IH]; intros [|c' s2] Hlen Heq;
    simpl in *; try done.
  injection Heq as -> Heq. injection Hlen as Hlen.
  destruct (IH _ Hlen Heq) as [-> ->]. done.
Qed.

Lemma String_inj_tail c (s1 s2 : string) :
  String c s1 = String c s2 → s1 = s2.
Proof. by intros [= ->]. Qed.

Lemma append_assoc (s1 s2 s3 : string) :
  (s1 +:+ s2) +:+ s3 = s1 +:+ (s2 +:+ s3).
Proof.
  induction s1 as [|c s1 IH]; [reflexivity|].
  change (String c ((s1 +:+ s2) +:+ s3) = String c (s1 +:+ (s2 +:+ s3))).
  by f_equal.
Qed.

Lemma digit_inj n m : digit n = digit m → n mod 10 = m mod 10.
Proof.
  unfold digit. intros Heq%(f_equal Ascii.N_of_ascii).
  pose proof (Z.mod_pos_bound n 10 ltac:(lia)).
  pose proof (Z.mod_pos_bound m 10 ltac:(lia)).
  rewrite !Ascii.N_ascii_embedding in Heq by lia. lia.
Qed.

Lemma pad_inj_mod width n m :
  pad width n = pad width m →
  n mod 10 ^ Z.of_nat width = m mod 10 ^ Z.of_nat width.
Proof.
  revert n m. induction width as [|w IH]; intros n m Heq.
  { by rewrite !Z.mod_1_r. }
  simpl in Heq. apply append_inj_length in Heq as [Hhi Hlo];
    [|by rewrite !length_pad].
  injection Hlo as Hlo%digit_inj. apply IH in Hhi.
  rewrite Nat2Z.inj_succ, Z.pow_succ_r by lia.
  assert (0 < 10 ^ Z.of_nat w) by (apply Z.pow_pos_nonneg; lia).
  rewrite !Z.rem_mul_r by lia. by rewrite Hhi, Hlo.
Qed.

Lemma pad_inj width n m :
  0 ≤ n < 10 ^ Z.of_nat width → 0 ≤ m < 10 ^ Z.of_nat width →
  pad width n = pad width m → n = m.
Proof.
  intros Hn Hm Heq%pad_inj_mod. by rewrite !Z.mod_small in Heq.
Qed.

Lemma length_year_string y :
  String.length (year_string y)
  = if (0 <=? y) && (y <=? 9999) then 4%nat else 7%nat.
Proof.
  unfold year_string. destruct (_ && _); [by rewrite length_pad|].
  destruct (0 <=? y); by rewrite length_append, length_pad.
Qed.

Lemma year_string_inj y1 y2 :
  -1000000 < y1 < 1000000 → -1000000 < y2 < 1000000 →
  year_string y1 = year_string y2 → y1 = y2.
Proof.
  intros H1 H2 Heq. pose proof (f_equal String.length Heq) as Hlen.
  rewrite !length_year_string in Hlen. unfold year_string in Heq.
  destruct (Z.leb_spec 0 y1), (Z.leb_spec y1 9999),
    (Z.leb_spec 0 y2), (Z.leb_spec y2 9999);
    cbn [andb String.append] in *; try done; try lia.
  - apply pad_inj in Heq; simpl; lia.
  - apply String_inj_tail in Heq.
    apply (pad_inj 6) in Heq; simpl; lia.
  - apply String_inj_tail in Heq.
    apply (pad_inj 6) in Heq; simpl; lia.
Qed.

Lemma YearFromTime_range t :
  -8640000000000000 ≤ t ≤ 8640000000000000 →
  -1000000 < YearFromTime t < 1000000.
Proof.
  intros Ht.
  assert (-999999 ≤ YearFromTime t).
  { apply YearFromTime_largest. vm_compute TimeFromYear. lia. }
  assert (¬ 1000000 ≤ YearFromTime t); [|lia].
  rewrite <-YearFromTime_largest. vm_compute TimeFromYear. lia.
Qed.

(** X13: the [datetime] attribute tells the instant.  Two time values in
    the range of a [Date] (100 000 000 days either side of the epoch) that
    print as the same string are the same time value, so posts published at
    different instants never get the same attribute. *)
Theorem iso_string_inj t1 t2 :
  -8640000000000000 ≤ t1 ≤ 8640000000000000 →
  -8640000000000000 ≤ t2 ≤ 8640000000000000 →
  iso_string t1 = iso_string t2 → t1 = t2.
Proof.
  intros H1 H2 Heq.
  pose proof (YearFromTime_range _ H1) as Hy1.
  pose proof (YearFromTime_range _ H2) as Hy2.
  pose proof (MonthFromTime_range t1). pose proof (MonthFromTime_range t2).
  destruct (Day_MakeDay t1) as [_ Hd1]. destruct (Day_MakeDay t2) as [_ Hd2].
  destruct (time_fields_range t1) as (? & ? & ? & ?).
  destruct (time_fields_range t2) as (? & ? & ? & ?).
  assert (String.length (year_string (YearFromTime t1))
          = String.length (year_string (YearFromTime t2))) as Hlen.
  { apply (f_equal String.length) in Heq. unfold iso_string in Heq.
    rewrite !length_append, !length_pad in Heq.
    cbn [String.length] in Heq. lia. }
  unfold iso_string in Heq.
  apply append_inj_length in Heq as [Hyear Heq]; [|done].
  apply year_string_inj in Hyear; [|done..].
  apply String_inj_tail in Heq.
  apply append_inj_length in Heq as [Hmonth Heq]; [|by rewrite !length_pad].
  apply (pad_inj 2) in Hmonth; [|simpl; lia..].
  apply String_inj_tail in Heq.
  apply append_inj_length in Heq as [Hdate Heq]; [|by rewrite !length_pad].
  apply (pad_inj 2) in Hdate; [|simpl; lia..].
  apply String_inj_tail in Heq.
  apply append_inj_length in Heq as [Hhour Heq]; [|by rewrite !length_pad].
  apply (pad_inj 2) in Hhour; [|simpl; lia..].
  apply String_inj_tail in Heq.
  apply append_inj_length in Heq as [Hmin Heq]; [|by rewrite !length_pad].
  apply (pad_inj 2) in Hmin; [|simpl; lia..].
  apply String_inj_tail in Heq.
  apply append_inj_length in Heq as [Hsec Heq]; [|by rewrite !length_pad].
  apply (pad_inj 2) in Hsec; [|simpl; lia..].
  apply String_inj_tail in Heq.
  apply append_inj_length in Heq as [Hms _]; [|by rewrite !length_pad].
  apply (pad_inj 3) in Hms; [|simpl; lia..].
  rewrite <-(MakeDate_fields t1), <-(MakeDate_fields t2).
  assert (MonthFromTime t1 = MonthFromTime t2) as -> by lia.
  by rewrite Hyear, Hdate, Hhour, Hmin, Hsec, Hms.
Qed.

Lemma iso_string_inj_witness : 1714219200000 = 1714219200000.
Proof.
  apply (iso_string_inj 1714219200000 1714219200000); [lia|lia|reflexivity].
Defined.


(** ** src/layouts/Home.astro *)

Example Layout_title_blog : Layout_title (Some "Blog") = "Blog · Ben Reinhart".
Proof. reflexivity. Qed.

(** X15: the title of a page always ends with the name of the site, and it
    is the name of the site alone exactly when the page gives no title or
    the empty title. *)
Theorem Layout_title_site_name (title : option string) :
  (∃ s, Layout_title title = s +:+ "Ben Reinhart")
  ∧ (Layout_title title = "Ben Reinhart" ↔ title = None ∨ title = Some "").
Proof.
  unfold Layout_title. destruct title as [[|c t]|]; simpl.
  - split; [exists EmptyString; reflexivity|]. split; auto.
  - split.
    + exists (String c t +:+ " · "). by rewrite append_assoc.
    + split; [|by intros [|]].
      intros Heq%(f_equal String.length). simpl in Heq.
      rewrite length_append in Heq. simpl in Heq. lia.
  - split; [exists EmptyString; reflexivity|]. split; auto.
Qed.

(** X16: the theme script writes the [theme] key of the dataset and no
    other; a stored theme that is not empty becomes the theme; with no
    stored theme, or an empty one, the dataset is left as it is; and running
    the script again changes nothing. *)
Theorem theme_script_effect (localStorage dataset : gmap string string) :
  (∀ k, k ≠ "theme" →
     theme_script localStorage dataset !! k = dataset !! k)
  ∧ (∀ t, localStorage !! "theme" = Some t → t ≠ "" →
       theme_script localStorage dataset !! "theme" = Some t)
  ∧ (localStorage !! "theme" = None ∨ localStorage !! "theme" = Some "" →
       theme_script localStorage dataset = dataset)
  ∧ theme_script localStorage (theme_script localStorage dataset)
    = theme_script localStorage dataset.
Proof.
  unfold theme_script.
  destruct (localStorage !! "theme") as [[|c t]|] eqn:Hls; simpl.
  - split_and!; try done. by intros t [= <-].
  - split_and!.
    + intros k Hk. by rewrite lookup_insert_ne.
    + intros t' [= <-] _. by rewrite lookup_insert_eq.
    + by intros [|].
    + by rewrite insert_insert_eq.
  - split_and!; done.
Qed.
